(** * dump_telegram_history.py: the export pipeline, embedded and verified

    The development follows [src/dump_telegram_history.py]:
    - Python values that the script reads from Telethon objects are typed
      records whose attributes may be missing ([attr]) or hold [None]
      ([option]), and otherwise hold a value of the kind Telethon puts
      there: counts are integers, [results] and [recent_reactions] are
      lists.  The date is the exception: it may be any truthy value, with
      or without the method [isoformat];
    - Python exceptions are an error monad ([result]);
    - the effects of [main] (progress bar, file writes, downloads, sleeps)
      are a trace of [event]s; the file operations of the script itself are
      replayed over a map from paths to files ([gmap]);
    - durations (Python floats) are idealised as canonical rationals [Qc]:
      the script only compares them with zero, doubles them and passes them
      to [asyncio.sleep];
    - the retry loop of the fetcher need not terminate (a source may throttle
      for ever), so it takes fuel and returns [None] when the fuel runs out;
      the properties give the fuel that suffices. *)

From Stdlib Require Import Ascii QArith Qcanon.
From stdpp Require Import base option list strings gmap pretty numbers.

Local Open Scope string_scope.
Local Open Scope Z_scope.
Local Open Scope list_scope.
Local Set Warnings "-register-all".

(** ** Python exceptions *)

Inductive exn :=
| AttributeError (name : string)
| TypeError (what : string)
| FloodWaitError (seconds : Z)
| OtherError (descr : string).

(** [repr(e)].  CPython's message wording is abbreviated to the payload. *)
Definition repr (e : exn) : string :=
  match e with
  | AttributeError name => "AttributeError('" +:+ name +:+ "')"
  | TypeError what => "TypeError('" +:+ what +:+ "')"
  | FloodWaitError seconds => "FloodWaitError(" +:+ pretty seconds +:+ ")"
  | OtherError descr => descr
  end.

Inductive result (A : Type) :=
| Ok (a : A)
| Raise (e : exn).
Arguments Ok {A} a.
Arguments Raise {A} e.

Global Instance result_ret : MRet result := λ A, Ok.
Global Instance result_bind : MBind result := λ A B f r,
  match r with Ok a => f a | Raise e => Raise e end.

(** [try: body except Exception as e: handler(e)] *)
Definition try_except {A} (body : result A) (handler : exn → A) : A :=
  match body with Ok a => a | Raise e => handler e end.

(** ** Attribute access *)

Inductive attr (A : Type) :=
| Absent
| Present (v : A).
Arguments Absent {A}.
Arguments Present {A} v.

(** [getattr(obj, name, default)] *)
Definition getattr {A} (a : attr A) (default : A) : A :=
  match a with Present v => v | Absent => default end.

(** [obj.name] *)
Definition dot {A} (name : string) (a : attr A) : result A :=
  match a with Present v => Ok v | Absent => Raise (AttributeError name) end.

(** [getattr(obj, name, default)] where [obj] itself may be [None]. *)
Definition getattr_of {O A} (obj : option O) (field : O → attr A) (default : A) : A :=
  match obj with Some o => getattr (field o) default | None => default end.

(** ** JSON values and records ([dict] with insertion order) *)

Inductive JSON :=
| JNull
| JBool (b : bool)
| JInt (z : Z)
| JStr (s : string)
| JList (l : list JSON)
| JObj (fields : list (string * JSON)).

Definition dict := list (string * JSON).

Definition json_int (o : option Z) : JSON :=
  match o with Some z => JInt z | None => JNull end.
Definition json_str (o : option string) : JSON :=
  match o with Some s => JStr s | None => JNull end.

Fixpoint dict_get (k : string) (d : dict) : option JSON :=
  match d with
  | [] => None
  | (k', v) :: d' => if decide (k' = k) then Some v else dict_get k d'
  end.

(** [d[k] = v] *)
Fixpoint dict_set (k : string) (v : JSON) (d : dict) : dict :=
  match d with
  | [] => [(k, v)]
  | (k', v') :: d' =>
      if decide (k' = k) then (k, v) :: d' else (k', v') :: dict_set k v d'
  end.


(** ** Raw records (Telethon objects) *)

(** The value under [date] when it is truthy; a falsy one is modelled by
    [None], the script only tests it.  A datetime has the method
    [isoformat]; another truthy value (a text, a number) has not. *)
Record datetime := { isoformat : attr string }.

Record Sender := {
  username : attr (option string);
  first_name : attr (option string);
  last_name : attr (option string);
}.

Record Reaction := {
  emoticon : attr (option string);
  document_id : attr (option Z);
  reaction_str : string;            (* str(rx) *)
}.

Record PeerReaction := { reaction : attr (option Reaction) }.

Record ReactionCount := { count : attr (option Z) }.

Record MessageReactions := {
  results : attr (option (list ReactionCount));
  recent_reactions : attr (option (list PeerReaction));
}.

Inductive Media := MediaObject (kind : string).

Record Message := {
  msg_id : attr (option Z);
  date : attr (option datetime);
  chat_id : attr (option Z);
  sender_id : attr (option Z);
  sender : attr (option Sender);
  message : attr (option string);
  reply_to_msg_id : attr (option Z);
  views : attr (option Z);
  forwards : attr (option Z);
  reactions : attr (option MessageReactions);
  media : attr (option Media);
  (* msg.download_media(media_dir): the outcome of the n-th call *)
  download_media : nat → result (option string);
}.

(** ** Normalizer: [to_serializable] *)

(** [str(rx)] *)
Definition str_reaction (rx : option Reaction) : string :=
  match rx with Some r => reaction_str r | None => "None" end.

(** [str(fn)] for the value returned by [download_media] *)
Definition str_path (fn : option string) : string :=
  match fn with Some p => p | None => "None" end.

(** [acc + c] inside [sum]: adding [None] to an int raises. *)
Definition add_count (acc : Z) (c : option Z) : result Z :=
  match c with
  | Some z => Ok (acc + z)
  | None => Raise (TypeError "unsupported operand type(s) for +")
  end.

(** [sum(getattr(x, "count", 0) for x in xs)] *)
Definition sum_counts (xs : list ReactionCount) : result Z :=
  foldl (λ acc x, a ← acc; add_count a (getattr (count x) (Some 0))) (Ok 0) xs.

(** [v or []] *)
Definition or_empty {A} (v : option (list A)) : list A :=
  match v with Some l => l | None => [] end.

(** Truthiness of an optional string and of an optional int. *)
Definition truthy_str (v : option string) : bool :=
  match v with Some s => bool_decide (s ≠ "") | None => false end.
Definition truthy_int (v : option Z) : bool :=
  match v with Some z => bool_decide (z ≠ 0) | None => false end.

(** [f"custom:{doc_id}"]; [None] is formatted as the text None. *)
Definition custom_token (doc_id : option Z) : string :=
  "custom:" +:+ match doc_id with Some d => pretty d | None => "None" end.

(** The body of the [try] inside the loop over recent reactions. *)
Definition recent_item (rr : PeerReaction) : result JSON :=
  rx ← dot "reaction" (reaction rr);
  let emo := getattr_of rx emoticon None in
  if truthy_str emo then mret (json_str emo)
  else
    let doc_id := getattr_of rx document_id None in
    mret (JStr (if truthy_int doc_id then custom_token doc_id
                else str_reaction rx)).

Definition serialize_reactions (r : option MessageReactions) : JSON :=
  match r with
  | None => JNull
  | Some r =>
      let total :=
        try_except
          (rs ← dot "results" (results r);
           t ← sum_counts (or_empty rs);
           mret (JInt t))
          (λ _, JNull) in
      let recent :=
        foldl (λ recent rr,
                 recent ++ [try_except (recent_item rr) (λ _, JNull)])
              [] (or_empty (getattr (recent_reactions r) None)) in
      JObj [("total", total); ("recent", JList recent)]
  end.

Definition to_serializable (msg : Message) : result dict :=
  s ← dot "sender" (sender msg);
  id ← dot "id" (msg_id msg);
  iso ← match getattr (date msg) None with
        | Some d => iso ← dot "isoformat" (isoformat d); mret (JStr iso)
        | None => mret JNull
        end;
  mret [
    ("id", json_int id);
    ("date", iso);
    ("chat_id", json_int (getattr (chat_id msg) None));
    ("sender_id", json_int (getattr (sender_id msg) None));
    ("sender_username", json_str (getattr_of s username None));
    ("sender_first_name", json_str (getattr_of s first_name None));
    ("sender_last_name", json_str (getattr_of s last_name None));
    ("message", json_str (getattr (message msg) None));
    ("reply_to_msg_id", json_int (getattr (reply_to_msg_id msg) None));
    ("views", json_int (getattr (views msg) None));
    ("forwards", json_int (getattr (forwards msg) None));
    ("reactions", serialize_reactions (getattr (reactions msg) None));
    ("media", JBool (bool_decide (is_Some (getattr (media msg) None))))
  ].

(** ** Configuration ([args]) and paths *)

(** [Path(args.json)], already split by pathlib. *)
Record Path := { parent : string; stem : string; suffix : string }.

(** A path is written as parent, slash, name.  For a file in the current
    directory (parent [.]) pathlib prints the name alone, which names the
    same file. *)
Definition path_str (p : Path) : string :=
  parent p +:+ "/" +:+ stem p +:+ suffix p.

(** [p.parent / file_name] *)
Definition joinpath (dir file_name : string) : string :=
  dir +:+ "/" +:+ file_name.

Record Args := {
  json : Path;
  media_dir_arg : option string;
  limit : option Z;
  batch_size : option Z;
  sleep_per_msg : Qc;
  sleep_every : Z;
  sleep_seconds : Qc;
  max_retries : Z;
  retry_backoff : Qc;
}.

(** [media_dir = Path(args.media_dir) if args.media_dir else None] *)
Definition media_dir (args : Args) : option string :=
  match media_dir_arg args with
  | Some d => if decide (d = "") then None else Some d
  | None => None
  end.

(** [batching = isinstance(args.batch_size, int) and args.batch_size > 0] *)
Definition batching (args : Args) : bool :=
  match batch_size args with
  | Some b => bool_decide (0 < b)
  | None => false
  end.

(** ** Effects *)

Inductive event :=
| EPbarOpen (total : option Z)
| EPbarUpdate
| EPbarClose
| EOpenW (path : string)
| EWriteLine (path : string) (line : JSON)
| ECloseW (path : string)
| EDump (path : string) (records : list JSON)
| EDownload (call : nat)
| ESleep (seconds : Qc).

(** What a path holds.  [FOpen] is a text file that the script has open for
    writing, with the lines handed to [f.write] so far: Python buffers them,
    so how many of them are on disk is settled only when the file is closed,
    and then it holds them all ([FLines]).  [FJson] is a batch file, which
    [write_batch] opens, writes and closes in one go. *)
Inductive file :=
| FOpen (written : list JSON)
| FLines (lines : list JSON)
| FJson (doc : JSON).

(** The file operations of the script itself.  [EOpenW] is [open("w")], which
    truncates; [ECloseW] is the end of the [with] block.  The media files are
    saved by Telethon inside [download_media]; what that call leaves in the
    media directory, on success or on failure, is not tracked here, and the
    properties stated with [replay] speak of the output and batch files
    only. *)
Definition apply_event (fs : gmap string file) (ev : event) : gmap string file :=
  match ev with
  | EOpenW p => <[p := FOpen []]> fs
  | EWriteLine p l =>
      match fs !! p with
      | Some (FOpen ls) => <[p := FOpen (ls ++ [l])]> fs
      | _ => fs
      end
  | ECloseW p =>
      match fs !! p with
      | Some (FOpen ls) => <[p := FLines ls]> fs
      | _ => fs
      end
  | EDump p records => <[p := FJson (JList records)]> fs
  | _ => fs
  end.

Definition replay (tr : list event) (fs : gmap string file) : gmap string file :=
  foldl apply_event fs tr.

(** ** Progress Tracker: the total handed to [tqdm] *)

Definition compute_total (args : Args) (get_total : result Z) : option Z :=
  let total := try_except (t ← get_total; mret (Some t)) (λ _, None) in
  match limit args with
  | Some l =>
      match total with
      | Some t => Some (Z.min t l)
      | None => Some l
      end
  | None => total
  end.

(** ** Sink: [write_batch] *)

(** [f"{idx:05d}"]: the decimal digits, padded with zeros on the left to a
    width of at least five characters, the sign counting as one of them. *)
Fixpoint zeros (n : nat) : string :=
  match n with
  | O => ""
  | S n => String "0"%char (zeros n)
  end.

Definition zfill (width : nat) (digits : string) : string :=
  zeros (width - String.length digits) +:+ digits.

Definition fmt_05d (idx : Z) : string :=
  match idx with
  | Zneg p => "-" +:+ zfill 4 (pretty (Zpos p))
  | _ => zfill 5 (pretty idx)
  end.

Definition batch_file_name (args : Args) (idx : Z) : string :=
  stem (json args) +:+ "_part" +:+ fmt_05d idx +:+ ".json".

Definition batch_path_of (args : Args) (idx : Z) : string :=
  joinpath (parent (json args)) (batch_file_name args idx).

Definition write_batch (args : Args) (records : list JSON) (idx : Z) : list event :=
  let base_name := stem (json args) in
  let file_name := base_name +:+ "_part" +:+ fmt_05d idx +:+ ".json" in
  let batch_path := joinpath (parent (json args)) file_name in
  [EDump batch_path records].

(** ** Pacing Controller: [maybe_rate_sleep] *)

Definition maybe_rate_sleep (args : Args) (written : Z) : list event :=
  (if decide (0 < sleep_per_msg args)%Qc then [ESleep (sleep_per_msg args)] else [])
  ++
  (if decide (0 < sleep_every args ∧ (0 < sleep_seconds args)%Qc) then
     if decide (0 < written ∧ written `mod` sleep_every args = 0)
     then [ESleep (sleep_seconds args)] else []
   else []).

(** ** Side-Effect Fetcher: [download_with_retry] *)

Record fetch := {
  outcome : option string * option string;
  final_attempt : Z;
  fetch_trace : list event;
}.

Definition before (evs : list event) (f : fetch) : fetch :=
  {| outcome := outcome f; final_attempt := final_attempt f;
     fetch_trace := evs ++ fetch_trace f |}.

(** [backoff * 2 if backoff > 0 else 0] *)
Definition next_backoff (backoff : Qc) : Qc :=
  if decide (Q2Qc 0 < backoff)%Qc then (backoff * Q2Qc 2)%Qc else Q2Qc 0.

(** The [while True] loop; [n] counts the calls of [download_media]. *)
Fixpoint retry_loop (fuel : nat) (args : Args) (msg : Message)
    (attempt : Z) (backoff : Qc) (n : nat) : option fetch :=
  match fuel with
  | O => None
  | S fuel =>
      match download_media msg n with
      | Ok fn =>
          Some {| outcome := (Some (str_path fn), None);
                  final_attempt := attempt;
                  fetch_trace := [EDownload n] |}
      | Raise (FloodWaitError seconds) =>
          before [EDownload n; ESleep (Qc_of_Z (seconds + 1))]
            <$> retry_loop fuel args msg attempt backoff (S n)
      | Raise e =>
          let attempt := attempt + 1 in
          if decide (attempt > Z.max 0 (max_retries args)) then
            Some {| outcome := (None, Some (repr e));
                    final_attempt := attempt;
                    fetch_trace := [EDownload n] |}
          else
            before [EDownload n; ESleep backoff]
              <$> retry_loop fuel args msg attempt
                    (next_backoff backoff) (S n)
      end
  end.

(** [max(0.0, x)] *)
Definition max0 (x : Qc) : Qc :=
  if decide (Q2Qc 0 < x)%Qc then x else Q2Qc 0.

Definition download_with_retry (fuel : nat) (args : Args) (msg : Message) : option fetch :=
  match media_dir args with
  | None => Some {| outcome := (None, None); final_attempt := 0; fetch_trace := [] |}
  | Some _ =>
      retry_loop fuel args msg 0 (max0 (retry_backoff args)) 0
  end.

(** ** Export Orchestrator: [main] *)

(** The body of the [try] of either loop, up to the record that goes to the
    sink: normalize, then fetch the media and attach the outcome. *)
Definition build_record (fuel : nat) (args : Args) (msg : Message)
    : option (result dict * list event) :=
  match to_serializable msg with
  | Raise e => Some (Raise e, [])
  | Ok rec =>
      if decide (is_Some (media_dir args) ∧ is_Some (getattr (media msg) None)) then
        f ← download_with_retry fuel args msg;
        let '(fn, err) := outcome f in
        let rec := if truthy_str fn then dict_set "media_path" (json_str fn) rec else rec in
        let rec := if truthy_str err then dict_set "media_error" (json_str err) rec else rec in
        Some (Ok rec, fetch_trace f)
      else Some (Ok rec, [])
  end.

(** The record of the [except] branch. *)
Definition placeholder (msg : Message) (e : exn) : dict :=
  [("id", json_int (getattr (msg_id msg) None)); ("error", JStr (repr e))].

(** What one source record contributes to the sink. *)
Definition sink_entry (fuel : nat) (args : Args) (msg : Message)
    : option (JSON * list event) :=
  '(r, evs) ← build_record fuel args msg;
  Some (JObj (try_except r (placeholder msg)), evs).

(** [async for msg in it] of the streaming branch. *)
Fixpoint stream_loop (fuel : nat) (args : Args) (it : list Message) (written : Z)
    : option (list event * Z) :=
  match it with
  | [] => Some ([], written)
  | msg :: it =>
      '(line, evs) ← sink_entry fuel args msg;
      let written := written + 1 in
      '(tr, final) ← stream_loop fuel args it written;
      Some (evs ++ [EWriteLine (path_str (json args)) line; EPbarUpdate]
                ++ maybe_rate_sleep args written ++ tr, final)
  end.

Record batch_state := {
  written_of : Z;
  batch_of : list JSON;
  batch_idx_of : Z;
}.

(** [async for msg in it] of the batch branch. *)
Fixpoint batch_loop (fuel : nat) (args : Args) (bsize : Z) (it : list Message)
    (written : Z) (batch : list JSON) (batch_idx : Z)
    : option (list event * batch_state) :=
  match it with
  | [] => Some ([], {| written_of := written; batch_of := batch;
                       batch_idx_of := batch_idx |})
  | msg :: it =>
      '(entry, evs) ← sink_entry fuel args msg;
      let batch := batch ++ [entry] in
      let written := written + 1 in
      if decide (bsize ≤ Z.of_nat (length batch)) then
        '(tr, final) ← batch_loop fuel args bsize it written [] (batch_idx + 1);
        Some (evs ++ write_batch args batch batch_idx ++ [EPbarUpdate]
                  ++ maybe_rate_sleep args written ++ tr, final)
      else
        '(tr, final) ← batch_loop fuel args bsize it written batch batch_idx;
        Some (evs ++ [EPbarUpdate] ++ maybe_rate_sleep args written ++ tr, final)
  end.

(** [main] from the progress bar on; [get_total] is the outcome of asking the
    source for its total, [it] the records the source yields.  The result is
    the trace of effects and the final value of [written]. *)
Definition main (fuel : nat) (args : Args) (get_total : result Z)
    (it : list Message) : option (list event * Z) :=
  let total := compute_total args get_total in
  let pbar := [EPbarOpen total] in
  match batch_size args with
  | Some bsize =>
      if decide (0 < bsize) then
        '(tr, st) ← batch_loop fuel args bsize it 0 [] 1;
        let flush :=
          match batch_of st with
          | [] => []
          | _ => write_batch args (batch_of st) (batch_idx_of st)
          end in
        Some (pbar ++ tr ++ flush ++ [EPbarClose], written_of st)
      else
        '(tr, written) ← stream_loop fuel args it 0;
        Some (pbar ++ [EOpenW (path_str (json args))] ++ tr
                ++ [ECloseW (path_str (json args))] ++ [EPbarClose], written)
  | None =>
      '(tr, written) ← stream_loop fuel args it 0;
      Some (pbar ++ [EOpenW (path_str (json args))] ++ tr
              ++ [ECloseW (path_str (json args))] ++ [EPbarClose], written)
  end.

(** ** Sample inputs *)

Definition plain_message (i : Z) : Message := {|
  msg_id := Present (Some i);
  date := Present (Some {| isoformat := Present "2024-01-01T00:00:00+00:00" |});
  chat_id := Present (Some (-100));
  sender_id := Present (Some 7);
  sender := Present (Some {| username := Present (Some "ann");
                             first_name := Present (Some "Ann");
                             last_name := Absent |});
  message := Present (Some "hi");
  reply_to_msg_id := Present None;
  views := Absent;
  forwards := Absent;
  reactions := Present None;
  media := Present None;
  download_media := λ _, Ok None;
|}.

Definition default_args : Args := {|
  json := {| parent := "."; stem := "messages"; suffix := ".jsonl" |};
  media_dir_arg := None;
  limit := None;
  batch_size := None;
  sleep_per_msg := Q2Qc 0;
  sleep_every := 0;
  sleep_seconds := Q2Qc 0;
  max_retries := 3;
  retry_backoff := Q2Qc (3 # 2);
|}.

(** A record with media whose download behaves as [dl] says. *)
Definition media_message (i : Z) (dl : nat → result (option string)) : Message := {|
  msg_id := Present (Some i);
  date := Present None;
  chat_id := Present (Some (-100));
  sender_id := Present (Some 7);
  sender := Present None;
  message := Present None;
  reply_to_msg_id := Present None;
  views := Present (Some 12);
  forwards := Present (Some 0);
  reactions := Present None;
  media := Present (Some (MediaObject "photo"));
  download_media := dl;
|}.

Definition connection_reset : exn := OtherError "ConnectionError('reset')".

(** The download fails on every attempt. *)
Definition broken_media_message : Message :=
  media_message 3 (λ _, Raise connection_reset).

(** The download is throttled three times with a wait of 2, then succeeds. *)
Definition throttled_media_message : Message :=
  media_message 4 (λ n, if decide (n < 3)%nat then Raise (FloodWaitError 2)
                        else Ok (Some "media/photo_4.jpg")).

Definition media_args : Args := {|
  json := {| parent := "."; stem := "messages"; suffix := ".jsonl" |};
  media_dir_arg := Some "media";
  limit := None;
  batch_size := None;
  sleep_per_msg := Q2Qc 0;
  sleep_every := 0;
  sleep_seconds := Q2Qc 0;
  max_retries := 3;
  retry_backoff := Q2Qc (3 # 2);
|}.

(** The download is throttled at every call. *)
Definition always_throttled_message : Message :=
  media_message 9 (λ _, Raise (FloodWaitError 1)).

(** [--media-dir] with the empty string *)
Definition empty_dir_args : Args := {|
  json := {| parent := "out"; stem := "messages"; suffix := ".jsonl" |};
  media_dir_arg := Some "";
  limit := Some 10;
  batch_size := None;
  sleep_per_msg := Q2Qc (1 # 10);
  sleep_every := 5;
  sleep_seconds := Q2Qc 1;
  max_retries := 3;
  retry_backoff := Q2Qc (3 # 2);
|}.

(** Batches of [b] records. *)
Definition batch_args (b : Z) : Args := {|
  json := {| parent := "."; stem := "messages"; suffix := ".jsonl" |};
  media_dir_arg := Some "media";
  limit := None;
  batch_size := Some b;
  sleep_per_msg := Q2Qc 0;
  sleep_every := 0;
  sleep_seconds := Q2Qc 0;
  max_retries := 3;
  retry_backoff := Q2Qc (3 # 2);
|}.


(** A pause of one second every two records. *)
Definition pacing_args : Args := {|
  json := {| parent := "."; stem := "messages"; suffix := ".jsonl" |};
  media_dir_arg := None;
  limit := None;
  batch_size := None;
  sleep_per_msg := Q2Qc 0;
  sleep_every := 2;
  sleep_seconds := Q2Qc 1;
  max_retries := 3;
  retry_backoff := Q2Qc (3 # 2);
|}.

(** A record without the [id] attribute. *)
Definition no_id_message : Message := {|
  msg_id := Absent;
  date := Absent;
  chat_id := Present (Some (-100));
  sender_id := Absent;
  sender := Present None;
  message := Present (Some "hi");
  reply_to_msg_id := Absent;
  views := Absent;
  forwards := Absent;
  reactions := Absent;
  media := Absent;
  download_media := λ _, Ok None;
|}.

(** A record whose date is a text, not a datetime. *)
Definition text_date_message : Message := {|
  msg_id := Present (Some 5);
  date := Present (Some {| isoformat := Absent |});
  chat_id := Present (Some (-100));
  sender_id := Present (Some 7);
  sender := Present None;
  message := Present (Some "hi");
  reply_to_msg_id := Present None;
  views := Present None;
  forwards := Present None;
  reactions := Present None;
  media := Present (Some (MediaObject "photo"));
  download_media := λ _, Ok (Some "media/photo_5.jpg");
|}.

(** Four records: plain, failing download, throttled download, no [id]. *)
Definition sample_source : list Message :=
  [plain_message 1; broken_media_message; throttled_media_message; no_id_message].

(** ** The reaction summary in the words of the specification *)

(** The per-result counts, when they are available: the container exposes
    its results and every count found there is an integer. *)
Definition available_counts (r : MessageReactions) : option (list Z) :=
  match results r with
  | Absent => None
  | Present rs => mapM (λ x, getattr (count x) (Some 0)) (or_empty rs)
  end.

Definition spec_total (r : MessageReactions) : JSON :=
  match available_counts r with
  | Some counts => JInt (foldr Z.add 0 counts)
  | None => JNull
  end.

(** One entry of the recent list: the emoticon if present, else the token
    for the document id if present, else the string form; [null] when the
    entry cannot be decoded. *)
Definition spec_recent_entry (rr : PeerReaction) : JSON :=
  match reaction rr with
  | Absent => JNull
  | Present rx =>
      match getattr_of rx emoticon None with
      | Some (String c e) => JStr (String c e)
      | _ =>
          match getattr_of rx document_id None with
          | Some (Zpos d) => JStr ("custom:" +:+ pretty (Zpos d))
          | Some (Zneg d) => JStr ("custom:" +:+ pretty (Zneg d))
          | _ => JStr (str_reaction rx)
          end
      end
  end.

Definition spec_reactions (r : option MessageReactions) : JSON :=
  match r with
  | None => JNull
  | Some r =>
      JObj [("total", spec_total r);
            ("recent",
             JList (spec_recent_entry <$> or_empty (getattr (recent_reactions r) None)))]
  end.

(** ** Observations on traces and on the source *)

Definition sleeps (tr : list event) : list Qc :=
  omap (λ ev, match ev with ESleep s => Some s | _ => None end) tr.

Definition download_calls (tr : list event) : list nat :=
  omap (λ ev, match ev with EDownload n => Some n | _ => None end) tr.

(** The retry budget: [max(0, args.max_retries)]. *)
Definition retries (args : Args) : nat := Z.to_nat (Z.max 0 (max_retries args)).

(** The source stops throttling the download of [msg] after [F] calls. *)
Definition throttling_stops (F : nat) (msg : Message) : Prop :=
  ∀ n s, (F ≤ n)%nat → download_media msg n ≠ Raise (FloodWaitError s).

(** The effects of [k] failed attempts that are retried, then a last one. *)
Fixpoint retry_trace (backoff : Qc) (n : nat) (k : nat) : list event :=
  match k with
  | O => [EDownload n]
  | S k => EDownload n :: ESleep backoff :: retry_trace (next_backoff backoff) (S n) k
  end.

(** The effects of the throttled calls, from call [n] on. *)
Fixpoint throttle_trace (n : nat) (waits : list Z) : list event :=
  match waits with
  | [] => []
  | s :: waits =>
      EDownload n :: ESleep (Qc_of_Z (s + 1)) :: throttle_trace (S n) waits
  end.

(** Exactly one of a path and a failure reason. *)
Definition exactly_one (o : option string * option string) : Prop :=
  (∃ p, o = (Some p, None)) ∨ (∃ r, o = (None, Some r)).

(** The entries that reached the sink, in the order they were written. *)
Definition written_entries (tr : list event) : list JSON :=
  tr ≫= λ ev,
    match ev with
    | EWriteLine _ line => [line]
    | EDump _ records => records
    | _ => []
    end.

(** The batch files written, in order: path and content. *)
Definition dumps (tr : list event) : list (string * list JSON) :=
  omap (λ ev, match ev with EDump p records => Some (p, records) | _ => None end) tr.

(** The sleeps at the head of a trace. *)
Fixpoint take_sleeps (tr : list event) : list event :=
  match tr with
  | ESleep s :: tr => ESleep s :: take_sleeps tr
  | _ => []
  end.

(** For each record processed (each update of the progress bar), the sleeps
    that follow it at once: the pacing of that record. *)
Fixpoint pacing_sleeps (tr : list event) : list (list event) :=
  match tr with
  | [] => []
  | EPbarUpdate :: tr => take_sleeps tr :: pacing_sleeps tr
  | _ :: tr => pacing_sleeps tr
  end.

(** What the sink receives for [msg], when the fetch returns. *)
Definition entry_of (fuel : nat) (args : Args) (msg : Message) : JSON :=
  match sink_entry fuel args msg with
  | Some (entry, _) => entry
  | None => JNull
  end.

(** The events of a fetch: calls of the download and sleeps. *)
Definition is_fetch_event (ev : event) : Prop :=
  match ev with EDownload _ | ESleep _ => True | _ => False end.

Definition is_sleep (ev : event) : Prop :=
  match ev with ESleep _ => True | _ => False end.

(** The trace does not begin with a sleep. *)
Definition starts_quiet (tr : list event) : Prop :=
  match tr with ESleep _ :: _ => False | _ => True end.

(** The only file the event touches, if any, is [out], by appending a line. *)
Definition appends_to (out : string) (ev : event) : Prop :=
  match ev with
  | EWriteLine p _ => p = out
  | EOpenW _ | ECloseW _ | EDump _ _ => False
  | _ => True
  end.

(** The event writes no line and opens or closes no file. *)
Definition dumps_only (ev : event) : Prop :=
  match ev with EWriteLine _ _ | EOpenW _ | ECloseW _ => False | _ => True end.

(** ** The pacing in the words of the specification *)

(** The sleeps of one invocation of the pacing controller, [processed] being
    the number of records processed so far, the current one included. *)
Definition spec_pacing (args : Args) (processed : Z) : list event :=
  (if decide (0 < sleep_per_msg args)%Qc then [ESleep (sleep_per_msg args)] else [])
  ++
  (if decide (0 < sleep_every args ∧ (0 < sleep_seconds args)%Qc
              ∧ processed `mod` sleep_every args = 0)
   then [ESleep (sleep_seconds args)] else []).

(** The same with the count the claim words: the records processed before
    the current one, which must be non-zero and a multiple of the interval. *)
Definition claimed_pacing (args : Args) (prior : Z) : list event :=
  (if decide (0 < sleep_per_msg args)%Qc then [ESleep (sleep_per_msg args)] else [])
  ++
  (if decide (0 < sleep_every args ∧ (0 < sleep_seconds args)%Qc
              ∧ prior ≠ 0 ∧ prior `mod` sleep_every args = 0)
   then [ESleep (sleep_seconds args)] else []).

(** The two sleeps of the pacing controller taken apart: the per-record
    delay, and the interval delay after [processed] records. *)
Definition per_record_sleep (args : Args) : list event :=
  if decide (0 < sleep_per_msg args)%Qc then [ESleep (sleep_per_msg args)] else [].

Definition interval_sleep (args : Args) (processed : Z) : list event :=
  if decide (0 < sleep_every args ∧ (0 < sleep_seconds args)%Qc
             ∧ processed `mod` sleep_every args = 0)
  then [ESleep (sleep_seconds args)] else [].

(** Dropping the zeros at the head of a numeral. *)
Fixpoint lstrip0 (s : string) : string :=
  match s with
  | String c s' => if decide (c = "0"%char) then lstrip0 s' else s
  | "" => ""
  end.

(** [ceil(n / b)] *)
Definition ceil_div (n b : Z) : Z := (n + b - 1) `div` b.

(** ** The run in closed form *)

(** The fetch of [msg] returns within the fuel. *)
Definition returns (fuel : nat) (args : Args) (msg : Message) : Prop :=
  is_Some (sink_entry fuel args msg).

(** The effects of the fetch of [msg], when it returns. *)
Definition events_of (fuel : nat) (args : Args) (msg : Message) : list event :=
  match sink_entry fuel args msg with
  | Some (_, evs) => evs
  | None => []
  end.

(** The effects of one record, up to the sink. *)
Definition stream_record (fuel : nat) (args : Args) (msg : Message) (written : Z)
    : list event :=
  events_of fuel args msg
  ++ [EWriteLine (path_str (json args)) (entry_of fuel args msg); EPbarUpdate]
  ++ maybe_rate_sleep args written.

(** The trace of the streaming loop when every fetch returns. *)
Fixpoint stream_trace (fuel : nat) (args : Args) (it : list Message) (written : Z)
    : list event :=
  match it with
  | [] => []
  | msg :: it =>
      stream_record fuel args msg (written + 1)
      ++ stream_trace fuel args it (written + 1)
  end.

(** The trace and the final state of the batch loop when every fetch returns. *)
Fixpoint batch_run (fuel : nat) (args : Args) (bsize : Z) (it : list Message)
    (written : Z) (batch : list JSON) (batch_idx : Z) : list event * batch_state :=
  match it with
  | [] => ([], {| written_of := written; batch_of := batch;
                  batch_idx_of := batch_idx |})
  | msg :: it =>
      let batch := batch ++ [entry_of fuel args msg] in
      let written := written + 1 in
      if decide (bsize ≤ Z.of_nat (length batch)) then
        let '(tr, final) := batch_run fuel args bsize it written [] (batch_idx + 1) in
        (events_of fuel args msg ++ write_batch args batch batch_idx
           ++ [EPbarUpdate] ++ maybe_rate_sleep args written ++ tr, final)
      else
        let '(tr, final) := batch_run fuel args bsize it written batch batch_idx in
        (events_of fuel args msg ++ [EPbarUpdate]
           ++ maybe_rate_sleep args written ++ tr, final)
  end.

(** The flush after the batch loop. *)
Definition final_flush (args : Args) (st : batch_state) : list event :=
  match batch_of st with
  | [] => []
  | _ => write_batch args (batch_of st) (batch_idx_of st)
  end.

(** The trace of [main] when every fetch returns. *)
Definition main_trace (fuel : nat) (args : Args) (get_total : result Z)
    (it : list Message) : list event :=
  match batch_size args with
  | Some bsize =>
      if decide (0 < bsize) then
        let '(tr, st) := batch_run fuel args bsize it 0 [] 1 in
        [EPbarOpen (compute_total args get_total)] ++ tr ++ final_flush args st
          ++ [EPbarClose]
      else
        [EPbarOpen (compute_total args get_total)]
          ++ [EOpenW (path_str (json args))] ++ stream_trace fuel args it 0
          ++ [ECloseW (path_str (json args))] ++ [EPbarClose]
  | None =>
      [EPbarOpen (compute_total args get_total)]
        ++ [EOpenW (path_str (json args))] ++ stream_trace fuel args it 0
        ++ [ECloseW (path_str (json args))] ++ [EPbarClose]
  end.

(** What the progress bar sees of a trace. *)
Definition pbar_trace (tr : list event) : list event :=
  omap (λ ev, match ev with
              | EPbarOpen _ | EPbarUpdate | EPbarClose => Some ev
              | _ => None
              end) tr.

(** ** Outcomes of the calls of [download_media] *)

(** The call raised an error other than the throttling signal. *)
Definition is_failure (r : result (option string)) : bool :=
  match r with
  | Raise (FloodWaitError _) => false
  | Raise _ => true
  | Ok _ => false
  end.

(** The call raised the throttling signal. *)
Definition is_throttle (r : result (option string)) : bool :=
  match r with
  | Raise (FloodWaitError _) => true
  | _ => false
  end.

(** How many of the calls [n], ..., [n + k - 1] satisfy [P]. *)
Definition count_calls (P : result (option string) → bool) (msg : Message)
    (n k : nat) : nat :=
  length (filter (λ i, P (download_media msg i) = true) (seq n k)).


(** The decimal digits of [x] on exactly [k] places, the most significant
    first. *)
Fixpoint fixed_digits (k : nat) (x : N) : string :=
  match k with
  | O => ""
  | S k => fixed_digits k (x `div` 10)%N
             +:+ String (pretty_N_char (x `mod` 10)%N) ""
  end.

(** The time slept in a trace, in seconds. *)
Definition total_sleep (tr : list event) : Qc :=
  foldr Qcplus (Q2Qc 0) (sleeps tr).

(** * Properties *)

(** ** Normalizer *)

Lemma foldl_snoc_fmap {A B} (f : A → B) (l : list A) (acc : list B) :
  foldl (λ acc x, acc ++ [f x]) acc l = acc ++ (f <$> l).
Proof.
  revert acc. induction l as [|x l IH]; intros acc; simpl.
  - by rewrite app_nil_r.
  - rewrite IH. by rewrite <-app_assoc.
Qed.

Lemma recent_item_spec rr :
  try_except (recent_item rr) (λ _, JNull) = spec_recent_entry rr.
Proof.
  unfold recent_item, spec_recent_entry.
  destruct (reaction rr) as [|rx]; simpl; [done|].
  destruct (getattr_of rx emoticon None) as [[|c e]|]; simpl; try done;
    destruct (getattr_of rx document_id None) as [[|d|d]|]; done.
Qed.

Lemma foldl_raise (xs : list ReactionCount) e :
  foldl (λ acc x, a ← acc; add_count a (getattr (count x) (Some 0))) (Raise e) xs
  = Raise e.
Proof. induction xs as [|x xs IH]; simpl; [done|apply IH]. Qed.

Lemma sum_counts_from (xs : list ReactionCount) (acc : Z) :
  foldl (λ acc x, a ← acc; add_count a (getattr (count x) (Some 0))) (Ok acc) xs
  = match mapM (λ x, getattr (count x) (Some 0)) xs with
    | Some counts => Ok (acc + foldr Z.add 0 counts)
    | None =>
        foldl (λ acc x, a ← acc; add_count a (getattr (count x) (Some 0))) (Ok acc) xs
    end.
Proof.
  revert acc. induction xs as [|x xs IH]; intros acc; simpl.
  - f_equal; lia.
  - destruct (getattr (count x) (Some 0)) as [c|] eqn:Hc; simpl; [|done].
    rewrite IH.
    destruct (mapM _ xs) as [counts|]; simpl; [f_equal; lia|done].
Qed.

Lemma sum_counts_none (xs : list ReactionCount) (acc : Z) :
  mapM (λ x, getattr (count x) (Some 0)) xs = None →
  ∃ e, foldl (λ acc x, a ← acc; add_count a (getattr (count x) (Some 0))) (Ok acc) xs
       = Raise e.
Proof.
  revert acc. induction xs as [|x xs IH]; intros acc; simpl; [done|].
  destruct (getattr (count x) (Some 0)) as [c|] eqn:Hc; simpl.
  - destruct (mapM _ xs) eqn:Hm; simpl; [done|]. intros _. by apply IH.
  - intros _. eexists. apply foldl_raise.
Qed.

Lemma total_spec r :
  try_except
    (rs ← dot "results" (results r);
     t ← sum_counts (or_empty rs);
     mret (JInt t))
    (λ _, JNull)
  = spec_total r.
Proof.
  unfold spec_total, available_counts, sum_counts.
  destruct (results r) as [|rs]; simpl; [done|].
  destruct (mapM _ (or_empty rs)) as [counts|] eqn:Hm.
  - rewrite sum_counts_from, Hm. simpl. done.
  - destruct (sum_counts_none _ 0 Hm) as [e ->]. done.
Qed.

(** C6: the reaction summary computed by [serialize_reactions] is the one
    the specification describes: [null] without a reaction container;
    otherwise the total is the sum of the per-result counts when they are
    available and [null] if not, and each recent entry is the emoticon, else
    the custom token of the document id, else the string form, with [null]
    in the place of an entry that cannot be decoded.  The normalized record
    carries that summary under the key reactions. *)
Theorem C6_reaction_summary :
  (∀ r, serialize_reactions r = spec_reactions r)
  ∧ (∀ msg,
       match to_serializable msg with
       | Ok rec =>
           dict_get "reactions" rec
           = Some (spec_reactions (getattr (reactions msg) None))
       | Raise _ => True
       end)
  ∧ (∀ msg,
       match to_serializable msg with
       | Ok rec =>
           match getattr (reactions msg) None with
           | None => dict_get "reactions" rec = Some JNull
           | Some _ => True
           end
       | Raise _ => True
       end).
Proof.
  assert (Hser : ∀ r, serialize_reactions r = spec_reactions r).
  { intros [r|]; [|done]. unfold serialize_reactions, spec_reactions.
    rewrite total_spec, foldl_snoc_fmap.
    f_equal. f_equal. f_equal. f_equal. f_equal.
    apply list_fmap_ext. intros _ rr _. apply recent_item_spec. }
  split; [done|].
  split; intros msg; unfold to_serializable;
    destruct (sender msg), (msg_id msg); simpl; try done;
    (destruct (getattr (date msg) None) as [d|]; simpl;
     [destruct (isoformat d); simpl; try done|]).
  - by rewrite Hser.
  - by rewrite Hser.
  - by destruct (getattr (reactions msg) None).
  - by destruct (getattr (reactions msg) None).
Qed.

(** ** Progress Tracker *)

(** C9: the total shown by the progress bar is the minimum of the source's
    total and the record limit when both are there, and there is no total
    (no denominator) exactly when the source's total is unavailable and no
    limit is configured; [main] opens the progress bar with that total. *)
Theorem C9_progress_total args get_total :
  match get_total, limit args with
  | Ok t, Some l => compute_total args get_total = Some (Z.min t l)
  | Raise _, None => compute_total args get_total = None
  | _, _ => True
  end
  ∧ (compute_total args get_total = None
     ↔ (∃ e, get_total = Raise e) ∧ limit args = None)
  ∧ ∀ fuel it,
      match main fuel args get_total it with
      | Some (tr, _) => head tr = Some (EPbarOpen (compute_total args get_total))
      | None => True
      end.
Proof.
  split; [|split].
  - unfold compute_total. destruct get_total, (limit args); done.
  - unfold compute_total. destruct get_total as [t|e], (limit args); simpl;
      split; try done; try (intros [[? [=]] ?]; done); try (intros [_ [=]]).
    intros _. eauto.
  - intros fuel it. unfold main.
    destruct (batch_size args) as [b|]; [destruct (decide (0 < b))|].
    + destruct (batch_loop _ _ _ _ _ _ _) as [[tr st]|]; done.
    + destruct (stream_loop _ _ _ _) as [[tr w]|]; done.
    + destruct (stream_loop _ _ _ _) as [[tr w]|]; done.
Qed.

(** ** Side-Effect Fetcher *)

Lemma max0_nonneg x : (Q2Qc 0 <= max0 x)%Qc.
Proof.
  unfold max0. destruct (decide (Q2Qc 0 < x)%Qc) as [H|H].
  - by apply Qclt_le_weak.
  - apply Qcle_refl.
Qed.

Lemma next_backoff_double b : (Q2Qc 0 <= b)%Qc → next_backoff b = (b * Q2Qc 2)%Qc.
Proof.
  intros Hb. unfold next_backoff. destruct (decide (Q2Qc 0 < b)%Qc) as [H|H]; [done|].
  assert (b = Q2Qc 0) as ->.
  { apply Qcle_antisym; [|done]. by apply Qcnot_lt_le. }
  ring.
Qed.

Lemma next_backoff_nonneg b : (Q2Qc 0 <= b)%Qc → (Q2Qc 0 <= next_backoff b)%Qc.
Proof.
  intros Hb. rewrite next_backoff_double by done.
  replace (Q2Qc 0) with (Q2Qc 0 * Q2Qc 2)%Qc by ring.
  apply Qcmult_le_compat_r; done.
Qed.

Lemma sleeps_retry_trace b n k :
  (Q2Qc 0 <= b)%Qc →
  sleeps (retry_trace b n k) = (λ i, b * Q2Qc 2 ^ i)%Qc <$> seq 0 k.
Proof.
  revert b n. induction k as [|k IH]; intros b n Hb; simpl; [done|].
  unfold sleeps in *. simpl. f_equal; [ring|].
  rewrite IH by by apply next_backoff_nonneg.
  rewrite <-fmap_S_seq, <-list_fmap_compose.
  apply list_fmap_ext. intros _ i _. simpl.
  rewrite next_backoff_double by done. ring.
Qed.

Lemma download_calls_retry_trace b n k :
  download_calls (retry_trace b n k) = seq n (S k).
Proof.
  revert b n. induction k as [|k IH]; intros b n; simpl; [done|].
  unfold download_calls in *. simpl. f_equal. apply IH.
Qed.

(** The loop on a source that only raises errors other than throttling:
    with [k] retries left in the budget it stops after [k + 1] calls. *)
Lemma retry_loop_failing args msg (errs : nat → exn) :
  (∀ n, download_media msg n = Raise (errs n)) →
  (∀ n s, errs n ≠ FloodWaitError s) →
  ∀ k fuel attempt backoff n,
    attempt = Z.max 0 (max_retries args) - Z.of_nat k →
    (k < fuel)%nat →
    retry_loop fuel args msg attempt backoff n
    = Some {| outcome := (None, Some (repr (errs (n + k)%nat)));
              final_attempt := Z.max 0 (max_retries args) + 1;
              fetch_trace := retry_trace backoff n k |}.
Proof.
  intros Hdl Hne. induction k as [|k IH]; intros fuel attempt backoff n Ha Hfuel.
  - destruct fuel as [|fuel]; [lia|]. simpl. rewrite Hdl.
    destruct (errs n) eqn:He; try (by destruct (Hne n seconds));
      (destruct (decide _); [|lia]); rewrite ?Nat.add_0_r, ?He;
      do 2 f_equal; lia.
  - destruct fuel as [|fuel]; [lia|]. simpl. rewrite Hdl.
    destruct (errs n) eqn:He; try (by destruct (Hne n seconds));
      (destruct (decide _); [lia|]);
      rewrite (IH fuel _ _ (S n)) by lia;
      simpl; unfold before; simpl; rewrite Nat.add_succ_r; done.
Qed.

(** C2: against a source that raises an error other than throttling on
    every attempt, the fetcher calls the download [1 + max(0, R)] times,
    sleeps the current backoff before each retry, the backoff starting at
    [max(0, retry_backoff)] and doubling after each retry (zero stays
    zero), and returns the failure with the description of the last error;
    the result is a value, no exception leaves the fetcher. *)
Theorem C2_bounded_retries args msg (errs : nat → exn) dir fuel :
  media_dir args = Some dir →
  (∀ n, download_media msg n = Raise (errs n)) →
  (∀ n s, errs n ≠ FloodWaitError s) →
  (retries args < fuel)%nat →
  ∃ f,
    download_with_retry fuel args msg = Some f
    ∧ outcome f = (None, Some (repr (errs (retries args))))
    ∧ download_calls (fetch_trace f) = seq 0 (1 + retries args)
    ∧ sleeps (fetch_trace f)
      = (λ i, max0 (retry_backoff args) * Q2Qc 2 ^ i)%Qc <$> seq 0 (retries args)
    ∧ fetch_trace f = retry_trace (max0 (retry_backoff args)) 0 (retries args).
Proof.
  intros Hdir Hdl Hne Hfuel. unfold download_with_retry. rewrite Hdir.
  rewrite (retry_loop_failing args msg errs Hdl Hne (retries args)); [|unfold retries; lia|done].
  eexists. split; [done|]. simpl.
  split; [done|]. split; [apply download_calls_retry_trace|].
  split; [|done]. apply sleeps_retry_trace, max0_nonneg.
Qed.

Lemma C2_witness :
  ∃ f,
    download_with_retry 4 media_args broken_media_message = Some f
    ∧ outcome f = (None, Some (repr connection_reset))
    ∧ download_calls (fetch_trace f) = seq 0 (1 + retries media_args)
    ∧ sleeps (fetch_trace f)
      = (λ i, max0 (retry_backoff media_args) * Q2Qc 2 ^ i)%Qc
          <$> seq 0 (retries media_args)
    ∧ fetch_trace f
      = retry_trace (max0 (retry_backoff media_args)) 0 (retries media_args).
Proof.
  apply (C2_bounded_retries media_args broken_media_message
           (λ _, connection_reset) "media" 4).
  - reflexivity.
  - reflexivity.
  - discriminate.
  - vm_compute. lia.
Defined.

(** Throttled calls leave the attempt counter and the backoff alone. *)
Lemma retry_loop_throttled args msg fn :
  ∀ waits fuel attempt backoff n,
    (∀ i s, waits !! i = Some s →
            download_media msg (n + i) = Raise (FloodWaitError s)) →
    download_media msg (n + length waits) = Ok fn →
    (length waits < fuel)%nat →
    retry_loop fuel args msg attempt backoff n
    = Some {| outcome := (Some (str_path fn), None);
              final_attempt := attempt;
              fetch_trace := throttle_trace n waits
                               ++ [EDownload (n + length waits)] |}.
Proof.
  induction waits as [|s waits IH]; intros fuel attempt backoff n Hw Hok Hfuel;
    (destruct fuel as [|fuel]; [simpl in Hfuel; lia|]); simpl in *.
  - rewrite Nat.add_0_r in Hok. rewrite Hok. by rewrite Nat.add_0_r.
  - specialize (Hw 0%nat s eq_refl) as Hw0. rewrite Nat.add_0_r in Hw0.
    rewrite Hw0. rewrite (IH fuel attempt backoff (S n)).
    + simpl. unfold before. simpl. by rewrite Nat.add_succ_r.
    + intros i s' Hi. specialize (Hw (S i) s' Hi).
      by rewrite Nat.add_succ_r in Hw.
    + by rewrite Nat.add_succ_r in Hok.
    + lia.
Qed.

(** C3: a throttling signal does not touch the attempt counter of the retry
    budget.  From any state of the loop, after any finite number of
    throttled calls followed by a successful one the fetcher returns the
    path, its attempt counter is what it was, and before each retry it has
    slept the indicated wait plus one; started by [download_with_retry] the
    counter is still zero. *)
Theorem C3_throttling_is_not_an_attempt args msg fn waits fuel :
  (∀ i s, waits !! i = Some s →
          download_media msg i = Raise (FloodWaitError s)) →
  download_media msg (length waits) = Ok fn →
  (length waits < fuel)%nat →
  (∀ attempt backoff, ∃ f,
     retry_loop fuel args msg attempt backoff 0 = Some f
     ∧ outcome f = (Some (str_path fn), None)
     ∧ final_attempt f = attempt
     ∧ sleeps (fetch_trace f) = (λ s, Qc_of_Z (s + 1)) <$> waits
     ∧ download_calls (fetch_trace f) = seq 0 (S (length waits)))
  ∧ (∀ dir, media_dir args = Some dir → ∃ f,
       download_with_retry fuel args msg = Some f
       ∧ outcome f = (Some (str_path fn), None)
       ∧ final_attempt f = 0).
Proof.
  intros Hw Hok Hfuel.
  assert (Hsl : ∀ n ws, sleeps (throttle_trace n ws ++ [EDownload (n + length ws)])
                        = (λ s, Qc_of_Z (s + 1)) <$> ws).
  { intros n ws. revert n. induction ws as [|s ws IH]; intros n; [done|].
    unfold sleeps in *. simpl. f_equal. rewrite <-Nat.add_succ_comm. apply IH. }
  assert (Hdc : ∀ n ws, download_calls (throttle_trace n ws ++ [EDownload (n + length ws)])
                        = seq n (S (length ws))).
  { intros n ws. revert n. induction ws as [|s ws IH]; intros n.
    - simpl. by rewrite Nat.add_0_r.
    - unfold download_calls in *. simpl. f_equal.
      rewrite <-Nat.add_succ_comm. apply IH. }
  split.
  - intros attempt backoff. eexists. split.
    { apply (retry_loop_throttled args msg fn waits); done. }
    simpl. repeat split; [apply Hsl|apply Hdc].
  - intros dir Hdir. unfold download_with_retry. rewrite Hdir. eexists. split.
    { apply (retry_loop_throttled args msg fn waits); done. }
    done.
Qed.

Lemma C3_witness :
  (∀ attempt backoff, ∃ f,
     retry_loop 4 media_args throttled_media_message attempt backoff 0 = Some f
     ∧ outcome f = (Some "media/photo_4.jpg", None)
     ∧ final_attempt f = attempt
     ∧ sleeps (fetch_trace f) = (λ s, Qc_of_Z (s + 1)) <$> [2; 2; 2]
     ∧ download_calls (fetch_trace f) = seq 0 4)
  ∧ (∀ dir, media_dir media_args = Some dir → ∃ f,
       download_with_retry 4 media_args throttled_media_message = Some f
       ∧ outcome f = (Some "media/photo_4.jpg", None)
       ∧ final_attempt f = 0).
Proof.
  apply (C3_throttling_is_not_an_attempt media_args throttled_media_message
           (Some "media/photo_4.jpg") [2; 2; 2] 4).
  - intros [|[|[|i]]] s Hi; simpl in Hi; inversion Hi; reflexivity.
  - reflexivity.
  - simpl. lia.
Defined.

(** Once the source has stopped throttling, the loop returns: each call
    either ends it, or uses up one of the throttled calls, or one retry. *)
Lemma retry_loop_returns args msg F :
  throttling_stops F msg →
  ∀ fuel attempt backoff n,
    Z.of_nat (F - n) + Z.max 0 (Z.max 0 (max_retries args) - attempt) < Z.of_nat fuel →
    ∃ f, retry_loop fuel args msg attempt backoff n = Some f
         ∧ exactly_one (outcome f).
Proof.
  intros Hstop. induction fuel as [|fuel IH]; intros attempt backoff n Hfuel; [lia|].
  simpl. destruct (download_media msg n) as [fn|e] eqn:Hdl.
  { eexists. split; [done|]. left. by eexists. }
  assert (Hflood : ∀ s, e = FloodWaitError s → (n < F)%nat).
  { intros s ->. destruct (decide (F ≤ n)%nat) as [Hle|]; [|lia].
    by destruct (Hstop n s Hle). }
  assert (Hretry : ∀ evs,
    ¬ attempt + 1 > Z.max 0 (max_retries args) →
    ∃ f, before evs <$> retry_loop fuel args msg (attempt + 1)
                          (next_backoff backoff) (S n) = Some f
         ∧ exactly_one (outcome f)).
  { intros evs Hle.
    destruct (IH (attempt + 1) (next_backoff backoff) (S n)) as (f & -> & Hf); [lia|].
    eexists. split; [done|]. done. }
  destruct e as [name|what|s|descr];
    try (destruct (decide _) as [Hgt|Hle];
         [eexists; split; [done|]; right; by eexists | by apply Hretry]).
  specialize (Hflood s eq_refl).
  destruct (IH attempt backoff (S n)) as (f & -> & Hf); [lia|].
  eexists. split; [done|]. done.
Qed.

Lemma download_with_retry_returns args msg F fuel dir :
  media_dir args = Some dir →
  throttling_stops F msg →
  (F + retries args < fuel)%nat →
  ∃ f, download_with_retry fuel args msg = Some f ∧ exactly_one (outcome f).
Proof.
  intros Hdir Hstop Hfuel. unfold download_with_retry. rewrite Hdir.
  apply (retry_loop_returns args msg F Hstop). unfold retries in Hfuel. lia.
Qed.


Lemma dict_get_set_ne k k' v d :
  k ≠ k' → dict_get k' (dict_set k v d) = dict_get k' d.
Proof.
  intros Hne. induction d as [|[k0 v0] d IH]; simpl.
  - by rewrite decide_False.
  - destruct (decide (k0 = k)) as [->|Hne0]; simpl.
    + by rewrite !decide_False.
    + destruct (decide (k0 = k')); done.
Qed.

Lemma to_serializable_no_media_keys msg rec :
  to_serializable msg = Ok rec →
  dict_get "media_path" rec = None ∧ dict_get "media_error" rec = None.
Proof.
  unfold to_serializable. destruct (sender msg), (msg_id msg); simpl; try done.
  destruct (getattr (date msg) None) as [d|]; simpl;
    [destruct (isoformat d); simpl; try done|];
    intros [= <-]; done.
Qed.

Lemma to_serializable_id msg rec :
  to_serializable msg = Ok rec →
  dict_get "id" rec = Some (json_int (getattr (msg_id msg) None)).
Proof.
  unfold to_serializable. destruct (sender msg), (msg_id msg); simpl; try done.
  destruct (getattr (date msg) None) as [d|]; simpl;
    [destruct (isoformat d); simpl; try done|];
    intros [= <-]; done.
Qed.


(** ** Sink: the names of the batch files *)

Lemma string_length_app s1 s2 :
  String.length (s1 +:+ s2) = (String.length s1 + String.length s2)%nat.
Proof. induction s1 as [|c s1 IH]; simpl; [done|by rewrite IH]. Qed.

Lemma string_app_inj_r s t1 t2 : t1 +:+ s = t2 +:+ s → t1 = t2.
Proof.
  intros Heq.
  assert (Hlen : String.length t1 = String.length t2).
  { apply (f_equal String.length) in Heq. rewrite !string_length_app in Heq. lia. }
  revert t2 Heq Hlen. induction t1 as [|c t1 IH]; intros [|c2 t2]; simpl; try done.
  intros [= -> Heq] [= Hlen]. f_equal. by apply IH.
Qed.

Lemma zeros_length n : String.length (zeros n) = n.
Proof. induction n as [|n IH]; simpl; [done|by rewrite IH]. Qed.

Lemma lstrip0_zeros n c r t :
  c ≠ "0"%char →
  lstrip0 ((zeros n +:+ String c r) +:+ t) = String c r +:+ t.
Proof.
  intros Hc. induction n as [|n IH]; simpl.
  - by rewrite decide_False.
  - exact IH.
Qed.

(** The numeral of a positive number starts with a digit other than zero. *)
Lemma pretty_N_go_head (x : N) (s : string) :
  (0 < x)%N → ∃ c r, pretty_N_go x s = String c r ∧ c ≠ "0"%char.
Proof.
  revert s. induction (N.lt_wf_0 x) as [x _ IH]; intros s Hx.
  rewrite pretty_N_go_step by done.
  destruct (decide (x `div` 10 = 0)%N) as [Hq|Hq].
  - rewrite Hq, pretty_N_go_0. do 2 eexists. split; [done|].
    assert (Hlt : (x < 10)%N) by (by apply N.div_small_iff).
    rewrite N.mod_small by done.
    assert (x = 1 ∨ x = 2 ∨ x = 3 ∨ x = 4 ∨ x = 5 ∨ x = 6
            ∨ x = 7 ∨ x = 8 ∨ x = 9)%N as Hcases by lia.
    repeat (destruct Hcases as [->|Hcases]; [done|]). by subst x.
  - apply IH.
    + apply N.div_lt; lia.
    + apply N.neq_0_lt_0. exact Hq.
Qed.

Lemma pretty_pos_head (idx : Z) :
  0 < idx → ∃ c r, pretty idx = String c r ∧ c ≠ "0"%char.
Proof.
  destruct idx as [|p|p]; try lia. intros _.
  unfold pretty, pretty_Z, pretty, pretty_positive, pretty, pretty_N.
  rewrite decide_False by done. apply pretty_N_go_head. lia.
Qed.

Lemma pretty_N_go_length (k : nat) :
  ∀ (x : N) (s : string),
    (x < 10 ^ N.of_nat k)%N →
    (String.length (pretty_N_go x s) ≤ String.length s + k)%nat.
Proof.
  induction k as [|k IH]; intros x s Hx.
  - assert (x = 0%N) as -> by (simpl in Hx; lia). rewrite pretty_N_go_0. lia.
  - destruct (decide (x = 0)%N) as [->|Hne]; [rewrite pretty_N_go_0; lia|].
    rewrite pretty_N_go_step by lia.
    etrans; [apply IH|simpl; lia].
    apply N.Div0.div_lt_upper_bound.
    replace (N.of_nat (S k)) with (N.succ (N.of_nat k)) in Hx by lia.
    by rewrite N.pow_succ_r' in Hx.
Qed.

Lemma pretty_length_le_5 (idx : Z) :
  0 ≤ idx < 100000 → (String.length (pretty idx) ≤ 5)%nat.
Proof.
  intros Hidx. destruct idx as [|p|p]; try lia; [simpl; lia|].
  unfold pretty, pretty_Z, pretty, pretty_positive, pretty, pretty_N.
  rewrite decide_False by done.
  apply (pretty_N_go_length 5 (N.pos p) ""). simpl. lia.
Qed.

Lemma fmt_05d_length (idx : Z) :
  0 ≤ idx →
  (5 ≤ String.length (fmt_05d idx))%nat
  ∧ (idx < 100000 → String.length (fmt_05d idx) = 5%nat).
Proof.
  intros Hidx.
  assert (fmt_05d idx = zfill 5 (pretty idx)) as -> by (destruct idx; [done..|lia]).
  unfold zfill. rewrite string_length_app, zeros_length. split; [lia|].
  intros Hlt. pose proof (pretty_length_le_5 idx). lia.
Qed.

Lemma fmt_05d_inj (a b : Z) (t : string) :
  0 < a → 0 < b → fmt_05d a +:+ t = fmt_05d b +:+ t → a = b.
Proof.
  intros Ha Hb Heq.
  assert (fmt_05d a = zfill 5 (pretty a)) as Hfa by (destruct a; [done..|lia]).
  assert (fmt_05d b = zfill 5 (pretty b)) as Hfb by (destruct b; [done..|lia]).
  rewrite Hfa, Hfb in Heq. unfold zfill in Heq.
  destruct (pretty_pos_head a Ha) as (ca & ra & Hpa & Hca).
  destruct (pretty_pos_head b Hb) as (cb & rb & Hpb & Hcb).
  apply (f_equal lstrip0) in Heq.
  rewrite Hpa, Hpb, !lstrip0_zeros in Heq by done.
  rewrite <-Hpa, <-Hpb in Heq.
  apply string_app_inj_r in Heq. by apply (inj pretty).
Qed.

Lemma batch_path_of_inj args (a b : Z) :
  0 < a → 0 < b → batch_path_of args a = batch_path_of args b → a = b.
Proof.
  intros Ha Hb. unfold batch_path_of, joinpath, batch_file_name.
  intros Heq. do 4 apply (inj (String.append _)) in Heq.
  by apply (fmt_05d_inj a b ".json").
Qed.

(** ** Export Orchestrator: the shape of the trace *)

Lemma retry_loop_shape args msg :
  ∀ fuel attempt backoff n f,
    retry_loop fuel args msg attempt backoff n = Some f →
    ∃ rest, fetch_trace f = EDownload n :: rest ∧ Forall is_fetch_event rest.
Proof.
  induction fuel as [|fuel IH]; intros attempt backoff n f; simpl; [done|].
  assert (Hstep : ∀ a b evs f,
    before (EDownload n :: evs) <$> retry_loop fuel args msg a b (S n) = Some f →
    Forall is_fetch_event evs →
    ∃ rest, fetch_trace f = EDownload n :: rest ∧ Forall is_fetch_event rest).
  { intros a b evs f' Hf Hevs.
    destruct (retry_loop fuel args msg a b (S n)) as [f0|] eqn:H0; [|done].
    simpl in Hf. injection Hf as <-. simpl.
    destruct (IH _ _ _ _ H0) as (rest & -> & Hrest).
    eexists. split; [done|]. apply Forall_app. split; [done|].
    by constructor. }
  destruct (download_media msg n) as [fn|e].
  { intros [= <-]. by eexists. }
  destruct e as [name|what|s|descr];
    try (destruct (decide _); [intros [= <-]; by eexists|];
         intros Hf; apply (Hstep _ _ _ _ Hf); by repeat constructor).
  intros Hf. apply (Hstep _ _ _ _ Hf). by repeat constructor.
Qed.

Lemma sink_entry_shape fuel args msg entry evs :
  sink_entry fuel args msg = Some (entry, evs) →
  Forall is_fetch_event evs ∧ starts_quiet evs.
Proof.
  unfold sink_entry, build_record.
  destruct (to_serializable msg) as [rec|e]; simpl; [|by intros [= <- <-]].
  destruct (decide _) as [[[dir Hdir] _]|_]; simpl; [|by intros [= <- <-]].
  destruct (download_with_retry fuel args msg) as [f|] eqn:Hf; simpl; [|done].
  destruct (outcome f) as [fn err]. intros [= <- <-].
  unfold download_with_retry in Hf. rewrite Hdir in Hf.
  destruct (retry_loop_shape _ _ _ _ _ _ _ Hf) as (rest & -> & Hrest).
  split; [by constructor|done].
Qed.

Lemma sink_entry_returns fuel args msg F :
  throttling_stops F msg →
  (F + retries args < fuel)%nat →
  ∃ evs, sink_entry fuel args msg = Some (entry_of fuel args msg, evs).
Proof.
  intros Hstop Hfuel. unfold entry_of, sink_entry, build_record.
  destruct (to_serializable msg) as [rec|e]; simpl; [|by eexists].
  destruct (decide _) as [[[dir Hdir] _]|_]; simpl; [|by eexists].
  destruct (download_with_retry_returns args msg F fuel dir Hdir Hstop Hfuel)
    as (f & -> & _).
  simpl. destruct (outcome f). simpl. by eexists.
Qed.

Lemma returns_sink_entry fuel args msg :
  returns fuel args msg →
  sink_entry fuel args msg = Some (entry_of fuel args msg, events_of fuel args msg).
Proof.
  unfold returns, entry_of, events_of. intros [[entry evs] ->]. done.
Qed.

Lemma throttling_stops_returns fuel args msg F :
  throttling_stops F msg → (F + retries args < fuel)%nat → returns fuel args msg.
Proof.
  intros Hstop Hfuel.
  destruct (sink_entry_returns fuel args msg F Hstop Hfuel) as [evs Hevs].
  unfold returns. by rewrite Hevs.
Qed.

Lemma all_return fuel args F it :
  Forall (throttling_stops F) it →
  (F + retries args < fuel)%nat →
  Forall (returns fuel args) it.
Proof.
  intros Hstop Hfuel. eapply list.Forall_impl; [exact Hstop|].
  intros msg Hmsg. by apply (throttling_stops_returns fuel args msg F).
Qed.

Lemma written_entries_app tr1 tr2 :
  written_entries (tr1 ++ tr2) = written_entries tr1 ++ written_entries tr2.
Proof. unfold written_entries. apply bind_app. Qed.

Lemma dumps_app tr1 tr2 : dumps (tr1 ++ tr2) = dumps tr1 ++ dumps tr2.
Proof. unfold dumps. apply omap_app. Qed.

Lemma fetch_events_silent evs :
  Forall is_fetch_event evs →
  written_entries evs = [] ∧ dumps evs = []
  ∧ (∀ out, Forall (appends_to out) evs) ∧ Forall dumps_only evs
  ∧ ∀ tr, pacing_sleeps (evs ++ tr) = pacing_sleeps tr.
Proof.
  induction 1 as [|ev evs Hev _ (IH1 & IH2 & IH3 & IH4 & IH5)]; [done|].
  destruct ev; try done; unfold written_entries, dumps in *; simpl;
    repeat split; try done; try (intros out; constructor; [done|apply IH3]);
    try (constructor; done).
Qed.

Lemma maybe_rate_sleep_sleeps args written :
  Forall is_sleep (maybe_rate_sleep args written).
Proof.
  unfold maybe_rate_sleep. apply Forall_app. split.
  - destruct (decide _); by repeat constructor.
  - destruct (decide _); [destruct (decide _)|]; by repeat constructor.
Qed.

Lemma sleeps_silent evs :
  Forall is_sleep evs →
  Forall is_fetch_event evs
  ∧ ∀ tr, starts_quiet tr → take_sleeps (evs ++ tr) = evs.
Proof.
  induction 1 as [|ev evs Hev _ [IH1 IH2]].
  - split; [done|]. intros [|[] tr]; done.
  - destruct ev; try done. split; [by constructor|].
    intros tr Htr. simpl. by rewrite IH2.
Qed.

(** The trace of one record once its entry is known: the pacing sleeps of
    the record are those of [maybe_rate_sleep]. *)
Lemma pacing_sleeps_record evs mid args written tr :
  Forall is_fetch_event evs →
  Forall (λ ev, ev ≠ EPbarUpdate) mid →
  starts_quiet tr →
  pacing_sleeps (evs ++ mid ++ [EPbarUpdate] ++ maybe_rate_sleep args written ++ tr)
  = maybe_rate_sleep args written :: pacing_sleeps tr.
Proof.
  intros Hevs Hmid Htr.
  destruct (fetch_events_silent evs Hevs) as (_ & _ & _ & _ & ->).
  induction Hmid as [|ev mid Hev _ IH].
  - simpl.
    destruct (sleeps_silent _ (maybe_rate_sleep_sleeps args written)) as [Hf Ht].
    rewrite Ht by done.
    by destruct (fetch_events_silent _ Hf) as (_ & _ & _ & _ & ->).
  - simpl. destruct ev; try done.
Qed.

Lemma stream_loop_spec fuel args it :
  Forall (returns fuel args) it →
  ∀ written, ∃ tr,
    stream_loop fuel args it written = Some (tr, written + Z.of_nat (length it))
    ∧ written_entries tr = entry_of fuel args <$> it
    ∧ dumps tr = []
    ∧ Forall (appends_to (path_str (json args))) tr
    ∧ starts_quiet tr
    ∧ ∀ rest, starts_quiet rest →
        pacing_sleeps (tr ++ rest)
        = imap (λ k _, maybe_rate_sleep args (written + Z.of_nat k + 1)) it
          ++ pacing_sleeps rest.
Proof.
  intros Hret. induction Hret as [|msg it Hmsg _ IH]; intros written.
  { exists []. simpl. rewrite Z.add_0_r. repeat split; done. }
  simpl.
  pose proof (returns_sink_entry _ _ _ Hmsg) as Hentry.
  set (evs := events_of fuel args msg) in *.
  rewrite Hentry. simpl.
  destruct (sink_entry_shape _ _ _ _ _ Hentry) as [Hevs Hquiet].
  destruct (IH (written + 1)) as (tr & -> & Hw & Hd & Happ & Htr & Hpace).
  simpl. eexists. split; [do 2 f_equal; lia|].
  destruct (fetch_events_silent evs Hevs) as (Hw0 & Hd0 & Happ0 & _ & _).
  destruct (sleeps_silent _ (maybe_rate_sleep_sleeps args (written + 1))) as [Hsf _].
  destruct (fetch_events_silent _ Hsf) as (Hw1 & Hd1 & Happ1 & _ & _).
  split; [|split; [|split; [|split]]].
  - rewrite written_entries_app, Hw0. simpl.
    change (?a :: ?b :: ?l ++ ?r) with ([a; b] ++ l ++ r).
    rewrite !written_entries_app, Hw1, Hw. done.
  - rewrite dumps_app, Hd0. simpl.
    change (?a :: ?b :: ?l ++ ?r) with ([a; b] ++ l ++ r).
    rewrite !dumps_app, Hd1, Hd. done.
  - apply Forall_app. split; [apply Happ0|].
    repeat (constructor; [done|]). apply Forall_app. split; [apply Happ1|done].
  - destruct evs as [|[] ?]; done.
  - intros rest Hrest.
    change (evs ++ ?a :: EPbarUpdate :: ?l ++ tr)
      with (evs ++ [a] ++ [EPbarUpdate] ++ l ++ tr).
    rewrite <-!app_assoc.
    rewrite (pacing_sleeps_record evs [_] args (written + 1) (tr ++ rest)).
    + rewrite Hpace by done. simpl. f_equal; [f_equal; lia|]. f_equal.
      apply imap_ext. intros k m _. simpl. f_equal. lia.
    + done.
    + by repeat constructor.
    + destruct tr as [|[] ?]; try done.
Qed.

Lemma batch_loop_spec fuel args B it :
  0 < B →
  Forall (returns fuel args) it →
  ∀ written batch batch_idx,
    Z.of_nat (length batch) < B →
    ∃ tr st,
      batch_loop fuel args B it written batch batch_idx = Some (tr, st)
      ∧ written_of st = written + Z.of_nat (length it)
      ∧ batch ++ (entry_of fuel args <$> it) = concat (dumps tr).*2 ++ batch_of st
      ∧ written_entries tr = concat (dumps tr).*2
      ∧ Forall (λ d, Z.of_nat (length d.2) = B) (dumps tr)
      ∧ Z.of_nat (length (batch_of st)) < B
      ∧ (dumps tr).*1
        = (λ i, batch_path_of args (batch_idx + Z.of_nat i))
            <$> seq 0 (length (dumps tr))
      ∧ batch_idx_of st = batch_idx + Z.of_nat (length (dumps tr))
      ∧ Forall dumps_only tr
      ∧ starts_quiet tr
      ∧ ∀ rest, starts_quiet rest →
          pacing_sleeps (tr ++ rest)
          = imap (λ k _, maybe_rate_sleep args (written + Z.of_nat k + 1)) it
            ++ pacing_sleeps rest.
Proof.
  intros HB Hret.
  induction Hret as [|msg it Hmsg _ IH]; intros written batch batch_idx Hlen.
  { exists [], {| written_of := written; batch_of := batch; batch_idx_of := batch_idx |}.
    simpl. rewrite Z.add_0_r, app_nil_r. repeat split; try done. lia. }
  simpl.
  pose proof (returns_sink_entry _ _ _ Hmsg) as Hentry.
  set (evs := events_of fuel args msg) in *.
  rewrite Hentry. simpl.
  destruct (sink_entry_shape _ _ _ _ _ Hentry) as [Hevs Hquiet].
  destruct (fetch_events_silent evs Hevs) as (Hw0 & Hd0 & _ & Hdo0 & _).
  destruct (sleeps_silent _ (maybe_rate_sleep_sleeps args (written + 1))) as [Hsf _].
  destruct (fetch_events_silent _ Hsf) as (Hw1 & Hd1 & _ & Hdo1 & _).
  set (entry := entry_of fuel args msg) in *.
  destruct (decide (B ≤ Z.of_nat (length (batch ++ [entry])))) as [Hfull|Hroom].
  - assert (HlenB : Z.of_nat (length (batch ++ [entry])) = B).
    { rewrite length_app in *. simpl in *. lia. }
    destruct (IH (written + 1) [] (batch_idx + 1)) as
      (tr & st & -> & Hwr & Hcat & Hw & Hfull' & Hlast & Hnames & Hidx & Hdo & Htr & Hpace);
      [simpl; lia|].
    simpl. do 2 eexists. split; [done|].
    set (tr1 := evs ++ _).
    assert (tr1 = evs ++ [EDump (batch_path_of args batch_idx) (batch ++ [entry])]
                      ++ [EPbarUpdate]
                      ++ maybe_rate_sleep args (written + 1) ++ tr) as -> by done.
    assert (Hdumps : dumps (evs ++ [EDump (batch_path_of args batch_idx) (batch ++ [entry])]
                              ++ [EPbarUpdate]
                              ++ maybe_rate_sleep args (written + 1) ++ tr)
                     = (batch_path_of args batch_idx, batch ++ [entry]) :: dumps tr).
    { rewrite !dumps_app, Hd0, Hd1. done. }
    rewrite Hdumps. rewrite !fmap_cons. cbn [concat fst snd length].
    split; [rewrite Hwr; lia|].
    split; [rewrite <-app_assoc, <-Hcat, <-app_assoc; done|].
    split.
    { rewrite !written_entries_app, Hw0, Hw1, Hw. simpl. by rewrite app_nil_r. }
    split; [by constructor|]. split; [done|].
    split.
    { rewrite Hnames. cbn [seq fmap list_fmap]. f_equal; [f_equal; lia|].
      rewrite <-fmap_S_seq, <-list_fmap_compose.
      apply list_fmap_ext. intros _ i _. simpl. f_equal. lia. }
    split; [lia|].
    split.
    { apply Forall_app. split; [done|]. constructor; [done|]. constructor; [done|].
      apply Forall_app. done. }
    split; [destruct evs as [|[] ?]; done|].
    intros rest Hrest. rewrite <-!app_assoc.
    rewrite (pacing_sleeps_record evs _ args (written + 1) (tr ++ rest)).
    + rewrite Hpace by done. simpl. f_equal; [f_equal; lia|]. f_equal.
      apply imap_ext. intros k m _. simpl. f_equal. lia.
    + done.
    + by repeat constructor.
    + destruct tr as [|[] ?]; try done.
  - destruct (IH (written + 1) (batch ++ [entry]) batch_idx) as
      (tr & st & -> & Hwr & Hcat & Hw & Hfull' & Hlast & Hnames & Hidx & Hdo & Htr & Hpace);
      [lia|].
    simpl. do 2 eexists. split; [done|].
    set (tr1 := evs ++ _).
    assert (tr1 = evs ++ [EPbarUpdate]
                      ++ maybe_rate_sleep args (written + 1) ++ tr) as -> by done.
    assert (Hdumps : dumps (evs ++ [EPbarUpdate]
                              ++ maybe_rate_sleep args (written + 1) ++ tr)
                     = dumps tr).
    { rewrite !dumps_app, Hd0, Hd1. done. }
    rewrite Hdumps.
    split; [rewrite Hwr; lia|].
    split; [rewrite <-Hcat, <-app_assoc; done|].
    split.
    { rewrite !written_entries_app, Hw0, Hw1, Hw. done. }
    split; [done|]. split; [done|]. split; [done|]. split; [done|].
    split.
    { apply Forall_app. split; [done|]. constructor; [done|].
      apply Forall_app. done. }
    split; [destruct evs as [|[] ?]; done|].
    intros rest Hrest. rewrite <-!app_assoc.
    etrans.
    { apply (pacing_sleeps_record evs [] args (written + 1) (tr ++ rest));
        [done|done|by destruct tr as [|[] ?]]. }
    rewrite Hpace by done. simpl. f_equal; [f_equal; lia|]. f_equal.
    apply imap_ext. intros k m _. simpl. f_equal. lia.
Qed.

(** *** Replaying a trace over the file system *)

Lemma replay_cons ev tr fs : replay (ev :: tr) fs = replay tr (apply_event fs ev).
Proof. done. Qed.

Lemma replay_app tr1 tr2 fs : replay (tr1 ++ tr2) fs = replay tr2 (replay tr1 fs).
Proof. unfold replay. apply foldl_app. Qed.

Lemma replay_appends out tr :
  Forall (appends_to out) tr →
  ∀ (fs : gmap string file) ls,
    fs !! out = Some (FOpen ls) →
    replay tr fs = <[out := FOpen (ls ++ written_entries tr)]> fs.
Proof.
  induction 1 as [|ev tr Hev _ IH]; intros fs ls Hfs.
  { unfold written_entries. simpl. rewrite app_nil_r. symmetry. by apply insert_id. }
  rewrite replay_cons.
  destruct ev as [t| | |p|p line|p|p records|n|s]; try done;
    try (simpl; rewrite (IH fs ls Hfs); done).
  simpl in Hev. subst p. simpl. rewrite Hfs.
  rewrite (IH _ (ls ++ [line])) by apply lookup_insert_eq.
  rewrite insert_insert_eq. unfold written_entries. simpl.
  by rewrite <-app_assoc.
Qed.

Lemma replay_dumps_other tr :
  Forall dumps_only tr →
  ∀ (fs : gmap string file) p,
    p ∉ (dumps tr).*1 → replay tr fs !! p = fs !! p.
Proof.
  induction 1 as [|ev tr Hev _ IH]; intros fs p Hp; [done|].
  rewrite replay_cons.
  destruct ev as [t| | |p'|p' line|p'|p' records|n|s]; try done;
    try (simpl; apply IH; done).
  unfold dumps in Hp. simpl in Hp. apply not_elem_of_cons in Hp as [Hne Hp].
  rewrite IH by done. simpl. by rewrite lookup_insert_ne.
Qed.

Lemma replay_dumps tr :
  Forall dumps_only tr →
  NoDup (dumps tr).*1 →
  ∀ (fs : gmap string file) p records,
    (p, records) ∈ dumps tr →
    replay tr fs !! p = Some (FJson (JList records)).
Proof.
  induction 1 as [|ev tr Hev Htr IH]; intros Hnd fs p records Hin.
  { by apply elem_of_nil in Hin. }
  rewrite replay_cons.
  destruct ev as [t| | |p'|p' line|p'|p' recs'|n|s]; try done;
    try (simpl; apply IH; done).
  unfold dumps in Hnd, Hin. simpl in Hnd, Hin.
  apply list.NoDup_cons in Hnd as [Hfresh Hnd].
  apply elem_of_cons in Hin as [[= -> ->]|Hin].
  - rewrite replay_dumps_other by done. simpl. apply lookup_insert_eq.
  - by apply IH.
Qed.

(** *** [main] without batching *)

Lemma pacing_sleeps_no_update tr :
  Forall (λ ev, ev ≠ EPbarUpdate) tr → pacing_sleeps tr = [].
Proof. induction 1 as [|[] tr Hev _ IH]; done. Qed.

Lemma main_stream_spec fuel args get_total it :
  batching args = false →
  Forall (returns fuel args) it →
  ∃ tr,
    main fuel args get_total it = Some (tr, Z.of_nat (length it))
    ∧ written_entries tr = entry_of fuel args <$> it
    ∧ dumps tr = []
    ∧ (∀ fs, replay tr fs
             = <[path_str (json args) := FLines (entry_of fuel args <$> it)]> fs)
    ∧ pacing_sleeps tr
      = imap (λ k _, maybe_rate_sleep args (Z.of_nat k + 1)) it.
Proof.
  intros Hmode Hret.
  destruct (stream_loop_spec fuel args it Hret 0)
    as (tr & Hloop & Hw & Hd & Happ & Htr & Hpace).
  assert (Hmain : main fuel args get_total it
    = Some ([EPbarOpen (compute_total args get_total)]
              ++ [EOpenW (path_str (json args))] ++ tr
              ++ [ECloseW (path_str (json args))] ++ [EPbarClose],
            Z.of_nat (length it))).
  { unfold main, batching in *.
    destruct (batch_size args) as [b|];
      [rewrite decide_False by (by apply bool_decide_eq_false in Hmode)|];
      rewrite Hloop; done. }
  eexists. split; [exact Hmain|].
  split; [|split; [|split]].
  - rewrite !written_entries_app, Hw. unfold written_entries. simpl.
    by rewrite app_nil_r.
  - rewrite !dumps_app, Hd. done.
  - intros fs. rewrite !replay_app. simpl.
    rewrite (replay_appends _ tr Happ _ []) by apply lookup_insert_eq.
    by rewrite insert_insert_eq, lookup_insert_eq, insert_insert_eq, Hw.
  - simpl. rewrite Hpace by done. simpl. rewrite app_nil_r.
    apply imap_ext. intros k m _. simpl. f_equal.
Qed.

(** *** [main] with batching *)

Lemma length_concat_full (B : Z) (ds : list (string * list JSON)) :
  Forall (λ d, Z.of_nat (length d.2) = B) ds →
  Z.of_nat (length (concat ds.*2)) = B * Z.of_nat (length ds).
Proof.
  induction 1 as [|d ds Hd _ IH]; [simpl; lia|].
  rewrite fmap_cons. cbn [concat]. rewrite length_app, length_cons.
  rewrite Nat2Z.inj_add, Nat2Z.inj_succ, IH, Hd. lia.
Qed.

Lemma ceil_div_exact B q : 0 < B → ceil_div (B * q) B = q.
Proof.
  intros HB. unfold ceil_div. symmetry.
  apply (Z.div_unique _ _ q (B - 1)); lia.
Qed.

Lemma ceil_div_partial B q r : 0 < r ≤ B → ceil_div (B * q + r) B = q + 1.
Proof.
  intros Hr. unfold ceil_div. symmetry.
  apply (Z.div_unique _ _ (q + 1) (r - 1)); lia.
Qed.

Lemma main_batch_spec fuel args B get_total it :
  batch_size args = Some B →
  0 < B →
  Forall (returns fuel args) it →
  ∃ tr,
    main fuel args get_total it = Some (tr, Z.of_nat (length it))
    ∧ written_entries tr = entry_of fuel args <$> it
    ∧ concat (dumps tr).*2 = entry_of fuel args <$> it
    ∧ (dumps tr).*1
      = (λ i, batch_path_of args (1 + Z.of_nat i)) <$> seq 0 (length (dumps tr))
    ∧ Z.of_nat (length (dumps tr)) = ceil_div (Z.of_nat (length it)) B
    ∧ (∀ i d, dumps tr !! i = Some d → (S i < length (dumps tr))%nat →
              Z.of_nat (length d.2) = B)
    ∧ (∀ d, list.last (dumps tr) = Some d → 0 < Z.of_nat (length d.2) ≤ B)
    ∧ Forall dumps_only tr
    ∧ pacing_sleeps tr = imap (λ k _, maybe_rate_sleep args (Z.of_nat k + 1)) it.
Proof.
  intros Hmode HB Hret.
  destruct (batch_loop_spec fuel args B it HB Hret 0 [] 1)
    as (tr & st & Hloop & Hwr & Hcat & Hw & Hfull & Hlast & Hnames & Hidx
        & Hdo & Htr & Hpace); [simpl; lia|].
  set (q := length (dumps tr)) in *.
  set (flush := match batch_of st with
                | [] => []
                | _ => [EDump (batch_path_of args (batch_idx_of st)) (batch_of st)]
                end).
  assert (Hmain : main fuel args get_total it
    = Some ([EPbarOpen (compute_total args get_total)] ++ tr ++ flush ++ [EPbarClose],
            Z.of_nat (length it))).
  { unfold main. rewrite Hmode, decide_True by done. rewrite Hloop. simpl.
    rewrite Hwr. unfold flush. by destruct (batch_of st). }
  assert (Hlen : Z.of_nat (length it)
                 = B * Z.of_nat q + Z.of_nat (length (batch_of st))).
  { apply (f_equal length) in Hcat. simpl in Hcat.
    rewrite length_fmap, length_app in Hcat.
    rewrite Hcat, Nat2Z.inj_add. f_equal. by apply length_concat_full. }
  assert (Hdumps : dumps ([EPbarOpen (compute_total args get_total)]
                            ++ tr ++ flush ++ [EPbarClose])
                   = dumps tr ++ dumps flush).
  { rewrite !dumps_app. unfold dumps at 1 4. simpl. by rewrite app_nil_r. }
  assert (Hquiet : starts_quiet (flush ++ [EPbarClose])).
  { unfold flush. by destruct (batch_of st). }
  assert (Hnoupd : Forall (λ ev, ev ≠ EPbarUpdate) (flush ++ [EPbarClose])).
  { unfold flush. destruct (batch_of st); by repeat constructor. }
  assert (Hpacing : pacing_sleeps ([EPbarOpen (compute_total args get_total)]
                                     ++ tr ++ flush ++ [EPbarClose])
                    = imap (λ k _, maybe_rate_sleep args (Z.of_nat k + 1)) it).
  { simpl. rewrite Hpace by done. rewrite pacing_sleeps_no_update by done.
    rewrite app_nil_r. apply imap_ext. intros k m _. simpl. f_equal. }
  assert (Hwritten : written_entries ([EPbarOpen (compute_total args get_total)]
                                        ++ tr ++ flush ++ [EPbarClose])
                     = entry_of fuel args <$> it).
  { rewrite !written_entries_app, Hw. simpl in Hcat. rewrite Hcat.
    unfold written_entries at 1 3. simpl. rewrite app_nil_r. f_equal.
    unfold flush. destruct (batch_of st); [done|].
    unfold written_entries. simpl. by rewrite app_nil_r. }
  assert (Honly : Forall dumps_only ([EPbarOpen (compute_total args get_total)]
                                       ++ tr ++ flush ++ [EPbarClose])).
  { constructor; [done|]. apply Forall_app. split; [done|].
    unfold flush. destruct (batch_of st); by repeat constructor. }
  eexists. split; [exact Hmain|]. rewrite Hdumps.
  split; [done|]. split; [|split; [|split; [|split; [|split; [|done]]]]].
  - rewrite fmap_app, concat_app. simpl in Hcat. rewrite Hcat. f_equal.
    unfold flush. destruct (batch_of st); [done|].
    unfold dumps. simpl. by rewrite app_nil_r.
  - rewrite fmap_app, length_app, Hnames. unfold flush.
    destruct (batch_of st) as [|e b]; unfold dumps at 1 2; simpl.
    + by rewrite !app_nil_r, Nat.add_0_r.
    + rewrite Nat.add_1_r, seq_S, fmap_app. simpl. by rewrite Hidx.
  - rewrite length_app, Hlen. unfold flush.
    destruct (batch_of st) as [|e b] eqn:Hb; unfold dumps at 2; simpl.
    + rewrite Z.add_0_r, ceil_div_exact by done. lia.
    + rewrite ceil_div_partial; [lia|]. simpl in Hlast. lia.
  - intros i d Hd Hi. rewrite length_app in Hi.
    assert (Hiq : (i < q)%nat).
    { unfold flush in Hi. destruct (batch_of st); unfold dumps at 2 in Hi; simpl in Hi; lia. }
    rewrite lookup_app_l in Hd by done.
    by apply (Forall_lookup_1 _ _ _ _ Hfull Hd).
  - intros d Hd. unfold flush in Hd.
    destruct (batch_of st) as [|e b] eqn:Hb.
    + unfold dumps at 2 in Hd. simpl in Hd. rewrite app_nil_r in Hd.
      apply last_Some_elem_of in Hd.
      pose proof (proj1 (list.Forall_forall _ _) Hfull d Hd) as HdB.
      simpl in HdB. lia.
    + unfold dumps at 2 in Hd. simpl in Hd. rewrite last_snoc in Hd.
      injection Hd as <-. simpl in *. lia.
Qed.

(** *** What each record contributes *)

Lemma entry_of_facts fuel args msg F :
  throttling_stops F msg →
  (F + retries args < fuel)%nat →
  (∃ evs, sink_entry fuel args msg = Some (entry_of fuel args msg, evs))
  ∧ (∃ d, entry_of fuel args msg = JObj d
          ∧ dict_get "id" d = Some (json_int (getattr (msg_id msg) None)))
  ∧ (∀ e, to_serializable msg = Raise e →
          entry_of fuel args msg = JObj (placeholder msg e)).
Proof.
  intros Hstop Hfuel.
  split; [by apply (sink_entry_returns fuel args msg F)|].
  unfold entry_of, sink_entry, build_record.
  destruct (to_serializable msg) as [rec|e] eqn:Hrec; simpl.
  2:{ split; [by eexists|]. by intros e' [= <-]. }
  split; [|done].
  pose proof (to_serializable_id msg rec Hrec) as Hid.
  destruct (decide _) as [[[dir Hdir] _]|_]; simpl; [|by eexists].
  destruct (download_with_retry_returns args msg F fuel dir Hdir Hstop Hfuel)
    as (f & -> & _).
  simpl. destruct (outcome f) as [fn err]. simpl. eexists. split; [done|].
  destruct (truthy_str fn), (truthy_str err);
    rewrite ?dict_get_set_ne by done; done.
Qed.

Lemma Forall2_entry_of {P : Message → JSON → Prop} fuel args (it : list Message) :
  Forall (λ msg, P msg (entry_of fuel args msg)) it →
  Forall2 P it (entry_of fuel args <$> it).
Proof. induction 1; simpl; by constructor. Qed.

Lemma maybe_rate_sleep_spec args written :
  0 < written → maybe_rate_sleep args written = spec_pacing args written.
Proof.
  intros Hw. unfold maybe_rate_sleep, spec_pacing. f_equal.
  destruct (decide (0 < sleep_every args ∧ _)) as [[HN Hs]|Hno].
  - destruct (decide (0 < written ∧ _)) as [[_ Hmod]|Hmod].
    + by rewrite decide_True.
    + rewrite decide_False; [done|]. intros (_ & _ & ?). by apply Hmod.
  - rewrite decide_False; [done|]. intros (? & ? & _). by apply Hno.
Qed.

(** ** The claims about the whole run *)

(** C1: for a source of N records the run produces exactly N entries, lines
    of the stream or entries of the batch files taken together, in the order
    of the source: the k-th entry is what the k-th record gives (it carries
    that record's id), and a record whose normalization fails appears in its
    place as the placeholder.  This holds whatever number of normalizations
    or downloads fail, provided the source stops throttling each download at
    some point (otherwise the fetcher waits for ever). *)
Theorem C1_one_entry_per_record fuel args F get_total it :
  Forall (throttling_stops F) it →
  (F + retries args < fuel)%nat →
  ∃ tr entries,
    main fuel args get_total it = Some (tr, Z.of_nat (length it))
    ∧ written_entries tr = entries
    ∧ length entries = length it
    ∧ Forall2 (λ msg entry,
         (∃ evs, sink_entry fuel args msg = Some (entry, evs))
         ∧ (∃ d, entry = JObj d
                 ∧ dict_get "id" d = Some (json_int (getattr (msg_id msg) None)))
         ∧ (∀ e, to_serializable msg = Raise e →
                 entry = JObj (placeholder msg e)))
        it entries
    ∧ (batching args = false →
       ∀ fs, replay tr fs !! path_str (json args) = Some (FLines entries))
    ∧ (batching args = true → concat (dumps tr).*2 = entries).
Proof.
  intros Hstop Hfuel.
  assert (Hentries : Forall2 (λ msg entry,
         (∃ evs, sink_entry fuel args msg = Some (entry, evs))
         ∧ (∃ d, entry = JObj d
                 ∧ dict_get "id" d = Some (json_int (getattr (msg_id msg) None)))
         ∧ (∀ e, to_serializable msg = Raise e →
                 entry = JObj (placeholder msg e)))
        it (entry_of fuel args <$> it)).
  { apply Forall2_entry_of. eapply list.Forall_impl; [exact Hstop|].
    intros msg Hmsg. by apply (entry_of_facts fuel args msg F). }
  destruct (batching args) eqn:Hmode.
  - unfold batching in Hmode. destruct (batch_size args) as [B|] eqn:HB; [|done].
    apply bool_decide_eq_true in Hmode.
    destruct (main_batch_spec fuel args B get_total it HB Hmode (all_return _ _ _ _ Hstop Hfuel))
      as (tr & Hmain & Hw & Hcat & _).
    exists tr, (entry_of fuel args <$> it).
    split; [done|]. split; [done|]. split; [by rewrite length_fmap|].
    split; [done|]. split; done.
  - destruct (main_stream_spec fuel args get_total it Hmode (all_return _ _ _ _ Hstop Hfuel))
      as (tr & Hmain & Hw & _ & Hfs & _).
    exists tr, (entry_of fuel args <$> it).
    split; [done|]. split; [done|]. split; [by rewrite length_fmap|].
    split; [done|]. split; [|done].
    intros _ fs. rewrite Hfs. apply lookup_insert_eq.
Qed.

Lemma sample_source_throttling : Forall (throttling_stops 3) sample_source.
Proof.
  repeat constructor; intros n s Hn; simpl; try done.
  by rewrite decide_False by lia.
Qed.

Lemma C1_witness :
  ∃ tr entries,
    main 7 media_args (Ok 4) sample_source
    = Some (tr, Z.of_nat (length sample_source))
    ∧ written_entries tr = entries
    ∧ length entries = length sample_source
    ∧ Forall2 (λ msg entry,
         (∃ evs, sink_entry 7 media_args msg = Some (entry, evs))
         ∧ (∃ d, entry = JObj d
                 ∧ dict_get "id" d = Some (json_int (getattr (msg_id msg) None)))
         ∧ (∀ e, to_serializable msg = Raise e →
                 entry = JObj (placeholder msg e)))
        sample_source entries
    ∧ (batching media_args = false →
       ∀ fs, replay tr fs !! path_str (json media_args) = Some (FLines entries))
    ∧ (batching media_args = true → concat (dumps tr).*2 = entries).
Proof.
  apply (C1_one_entry_per_record 7 media_args 3 (Ok 4) sample_source).
  - exact sample_source_throttling.
  - vm_compute. lia.
Defined.

(** C7 (as amended): the normalizer reads three things without a default,
    in this order: [msg.sender], [msg.id] and, on a date that is truthy, its
    method [isoformat].  For a record that has them it returns a record of
    the thirteen fields without raising, with [null] for every attribute
    that is missing or [None], the date included.  For a record that lacks
    one of them it raises [AttributeError]; the orchestrator's [except] then
    makes the placeholder with [getattr(msg, "id", None)] and the error's
    description without attempting a download, and the run writes that
    placeholder at the record's position. *)
Theorem C7_normalizer_partial :
  (∀ msg s i,
     sender msg = Present s →
     msg_id msg = Present i →
     (∀ d, getattr (date msg) None = Some d → isoformat d ≠ Absent) →
     ∃ rec,
       to_serializable msg = Ok rec
       ∧ rec.*1 = ["id"; "date"; "chat_id"; "sender_id"; "sender_username";
                   "sender_first_name"; "sender_last_name"; "message";
                   "reply_to_msg_id"; "views"; "forwards"; "reactions"; "media"]
       ∧ dict_get "id" rec = Some (json_int i)
       ∧ (getattr (date msg) None = None → dict_get "date" rec = Some JNull)
       ∧ (∀ d iso, getattr (date msg) None = Some d → isoformat d = Present iso →
            dict_get "date" rec = Some (JStr iso))
       ∧ (getattr (chat_id msg) None = None → dict_get "chat_id" rec = Some JNull)
       ∧ (getattr (sender_id msg) None = None → dict_get "sender_id" rec = Some JNull)
       ∧ (s = None →
          dict_get "sender_username" rec = Some JNull
          ∧ dict_get "sender_first_name" rec = Some JNull
          ∧ dict_get "sender_last_name" rec = Some JNull)
       ∧ (getattr (message msg) None = None → dict_get "message" rec = Some JNull)
       ∧ (getattr (reply_to_msg_id msg) None = None →
          dict_get "reply_to_msg_id" rec = Some JNull)
       ∧ (getattr (views msg) None = None → dict_get "views" rec = Some JNull)
       ∧ (getattr (forwards msg) None = None → dict_get "forwards" rec = Some JNull)
       ∧ (getattr (reactions msg) None = None → dict_get "reactions" rec = Some JNull)
       ∧ (getattr (media msg) None = None → dict_get "media" rec = Some (JBool false)))
  ∧ (∀ msg, sender msg = Absent →
       to_serializable msg = Raise (AttributeError "sender"))
  ∧ (∀ msg s, sender msg = Present s → msg_id msg = Absent →
       to_serializable msg = Raise (AttributeError "id"))
  ∧ (∀ msg s i d,
       sender msg = Present s → msg_id msg = Present i →
       getattr (date msg) None = Some d → isoformat d = Absent →
       to_serializable msg = Raise (AttributeError "isoformat"))
  ∧ (∀ msg e fuel args,
       to_serializable msg = Raise e →
       sink_entry fuel args msg
       = Some (JObj [("id", json_int (getattr (msg_id msg) None));
                     ("error", JStr (repr e))], []))
  ∧ (∀ fuel args F get_total it,
       Forall (throttling_stops F) it →
       (F + retries args < fuel)%nat →
       ∃ tr,
         main fuel args get_total it = Some (tr, Z.of_nat (length it))
         ∧ length (written_entries tr) = length it
         ∧ ∀ k msg e,
             it !! k = Some msg →
             to_serializable msg = Raise e →
             written_entries tr !! k
             = Some (JObj [("id", json_int (getattr (msg_id msg) None));
                           ("error", JStr (repr e))])).
Proof.
  assert (Hsink : ∀ msg e fuel args,
    to_serializable msg = Raise e →
    sink_entry fuel args msg
    = Some (JObj [("id", json_int (getattr (msg_id msg) None));
                  ("error", JStr (repr e))], [])).
  { intros msg e fuel args Hraise. unfold sink_entry, build_record.
    by rewrite Hraise. }
  split; [|split; [|split; [|split; [|split; [exact Hsink|]]]]].
  - intros msg s i Hs Hi Hdate. unfold to_serializable. rewrite Hs, Hi. simpl.
    destruct (getattr (date msg) None) as [d|] eqn:Hd; simpl.
    + destruct (isoformat d) as [|iso] eqn:Hiso; [by destruct (Hdate d)|].
      simpl. eexists. split; [done|]. simpl.
      repeat split; try done; try (by intros ->); try (subst s; done).
      intros d' iso' [= <-] Hiso'. congruence.
    + eexists. split; [done|]. simpl.
      repeat split; try done; try (by intros ->); subst s; done.
  - intros msg Hs. unfold to_serializable. by rewrite Hs.
  - intros msg s Hs Hi. unfold to_serializable. by rewrite Hs, Hi.
  - intros msg s i d Hs Hi Hd Hiso. unfold to_serializable.
    rewrite Hs, Hi. simpl. rewrite Hd. simpl. by rewrite Hiso.
  - intros fuel args F get_total it Hstop Hfuel.
    pose proof (all_return _ _ _ _ Hstop Hfuel) as Hret.
    assert (Hrun : ∃ tr,
      main fuel args get_total it = Some (tr, Z.of_nat (length it))
      ∧ written_entries tr = entry_of fuel args <$> it).
    { destruct (batching args) eqn:Hmode.
      - unfold batching in Hmode. destruct (batch_size args) as [B|] eqn:HB; [|done].
        apply bool_decide_eq_true in Hmode.
        destruct (main_batch_spec fuel args B get_total it HB Hmode Hret)
          as (tr & Hmain & Hw & _).
        by exists tr.
      - destruct (main_stream_spec fuel args get_total it Hmode Hret)
          as (tr & Hmain & Hw & _).
        by exists tr. }
    destruct Hrun as (tr & Hmain & Hw). exists tr. split; [done|].
    rewrite Hw. split; [by rewrite length_fmap|].
    intros k msg e Hk Hraise. rewrite list_lookup_fmap, Hk. simpl.
    unfold entry_of. by rewrite (Hsink msg e fuel args Hraise).
Qed.

Lemma C7_witness :
  (∃ rec,
     to_serializable (plain_message 1) = Ok rec
     ∧ rec.*1 = ["id"; "date"; "chat_id"; "sender_id"; "sender_username";
                 "sender_first_name"; "sender_last_name"; "message";
                 "reply_to_msg_id"; "views"; "forwards"; "reactions"; "media"]
     ∧ dict_get "id" rec = Some (JInt 1))
  ∧ to_serializable text_date_message = Raise (AttributeError "isoformat")
  ∧ sink_entry 0 media_args text_date_message
    = Some (JObj [("id", JInt 5);
                  ("error", JStr (repr (AttributeError "isoformat")))], [])
  ∧ ∃ tr,
      main 7 media_args (Ok 4) sample_source = Some (tr, 4)
      ∧ written_entries tr !! 3%nat
        = Some (JObj [("id", JNull);
                      ("error", JStr (repr (AttributeError "id")))]).
Proof.
  destruct C7_normalizer_partial as (Hok & _ & Hid & Hdate & Hsink & Hrun).
  split; [|split; [|split]].
  - destruct (Hok (plain_message 1) _ _ eq_refl eq_refl) as (rec & H1 & H2 & H3 & _).
    { intros d [= <-]. discriminate. }
    exists rec. split; [exact H1|]. split; [exact H2|exact H3].
  - apply (Hdate text_date_message None (Some 5) {| isoformat := Absent |});
      reflexivity.
  - apply (Hsink text_date_message (AttributeError "isoformat") 0%nat media_args).
    reflexivity.
  - destruct (Hrun 7%nat media_args 3%nat (Ok 4) sample_source
                sample_source_throttling) as (tr & Hmain & _ & Hat).
    { vm_compute. lia. }
    exists tr. split; [exact Hmain|].
    apply (Hat 3%nat no_id_message (AttributeError "id")); reflexivity.
Defined.

(** C7, as stated, fails: a record without the [id] attribute makes the
    normalizer raise. *)
Lemma C7_missing_id_raises :
  to_serializable no_id_message = Raise (AttributeError "id").
Proof. reflexivity. Qed.


(** C10: with an empty source, streaming still opens the output file for
    writing and closes it, so that afterwards the file exists and is empty
    whatever it held before, while batching writes no file at all and leaves
    the file system as it was. *)
Theorem C10_empty_source fuel args get_total :
  ∃ tr,
    main fuel args get_total [] = Some (tr, 0)
    ∧ if batching args
      then tr = [EPbarOpen (compute_total args get_total); EPbarClose]
           ∧ dumps tr = []
           ∧ ∀ fs, replay tr fs = fs
      else tr = [EPbarOpen (compute_total args get_total);
                 EOpenW (path_str (json args)); ECloseW (path_str (json args));
                 EPbarClose]
           ∧ ∀ fs, replay tr fs = <[path_str (json args) := FLines []]> fs.
Proof.
  assert (Hfs : ∀ fs : gmap string file,
    replay [EPbarOpen (compute_total args get_total);
            EOpenW (path_str (json args)); ECloseW (path_str (json args));
            EPbarClose] fs
    = <[path_str (json args) := FLines []]> fs).
  { intros fs. unfold replay. simpl.
    by rewrite lookup_insert_eq, insert_insert_eq. }
  unfold main, batching.
  destruct (batch_size args) as [B|]; [destruct (decide (0 < B)) as [HB|HB]|]; simpl.
  - eexists. split; [done|]. by rewrite bool_decide_true.
  - eexists. split; [done|]. by rewrite bool_decide_false.
  - eexists. split; done.
Qed.

(** C5 (as amended): after each record the pacing controller sleeps the
    per-record delay if it is positive and, independently, the interval
    delay if the interval N and that delay are both positive and the number
    of records processed so far, the current one included, is a multiple
    of N; both sleeps can occur in the same invocation. *)
Theorem C5_pacing_counts_current_record fuel args F get_total it :
  Forall (throttling_stops F) it →
  (F + retries args < fuel)%nat →
  ∃ tr,
    main fuel args get_total it = Some (tr, Z.of_nat (length it))
    ∧ pacing_sleeps tr = imap (λ k _, spec_pacing args (Z.of_nat k + 1)) it
    ∧ (∀ processed,
         (0 < sleep_per_msg args)%Qc →
         0 < sleep_every args → (0 < sleep_seconds args)%Qc →
         processed `mod` sleep_every args = 0 →
         spec_pacing args processed
         = [ESleep (sleep_per_msg args); ESleep (sleep_seconds args)]).
Proof.
  intros Hstop Hfuel.
  assert (Hpace : ∃ tr,
    main fuel args get_total it = Some (tr, Z.of_nat (length it))
    ∧ pacing_sleeps tr = imap (λ k _, maybe_rate_sleep args (Z.of_nat k + 1)) it).
  { destruct (batching args) eqn:Hmode.
    - unfold batching in Hmode. destruct (batch_size args) as [B|] eqn:HB; [|done].
      apply bool_decide_eq_true in Hmode.
      destruct (main_batch_spec fuel args B get_total it HB Hmode (all_return _ _ _ _ Hstop Hfuel))
        as (tr & Hmain & _ & _ & _ & _ & _ & _ & _ & Hp).
      by exists tr.
    - destruct (main_stream_spec fuel args get_total it Hmode (all_return _ _ _ _ Hstop Hfuel))
        as (tr & Hmain & _ & _ & _ & Hp).
      by exists tr. }
  destruct Hpace as (tr & Hmain & Hp). exists tr. split; [done|]. split.
  - rewrite Hp. apply imap_ext. intros k m _. simpl.
    apply maybe_rate_sleep_spec. lia.
  - intros processed Hd HN Hs Hmod. unfold spec_pacing.
    rewrite !decide_True by done. done.
Qed.

Lemma C5_witness :
  ∃ tr,
    main 4 pacing_args (Ok 3) [plain_message 1; plain_message 2; plain_message 3]
    = Some (tr, 3)
    ∧ pacing_sleeps tr
      = imap (λ k _, spec_pacing pacing_args (Z.of_nat k + 1))
          [plain_message 1; plain_message 2; plain_message 3]
    ∧ (∀ processed,
         (0 < sleep_per_msg pacing_args)%Qc →
         0 < sleep_every pacing_args → (0 < sleep_seconds pacing_args)%Qc →
         processed `mod` sleep_every pacing_args = 0 →
         spec_pacing pacing_args processed
         = [ESleep (sleep_per_msg pacing_args); ESleep (sleep_seconds pacing_args)]).
Proof.
  apply (C5_pacing_counts_current_record 4 pacing_args 0 (Ok 3)
           [plain_message 1; plain_message 2; plain_message 3]).
  - repeat constructor; intros n s _; discriminate.
  - vm_compute. lia.
Defined.

(** C5, as stated, fails: with a pause every two records, the third record
    has two records before it, a non-zero multiple of two, yet no interval
    sleep follows it; the sleep follows the second record, which has one
    record before it. *)
Lemma C5_interval_sleep_after_second_record :
  ∃ tr,
    main 4 pacing_args (Ok 3) [plain_message 1; plain_message 2; plain_message 3]
    = Some (tr, 3)
    ∧ pacing_sleeps tr = [[]; [ESleep (Q2Qc 1)]; []]
    ∧ imap (λ k _, claimed_pacing pacing_args (Z.of_nat k))
        [plain_message 1; plain_message 2; plain_message 3]
      = [[]; []; [ESleep (Q2Qc 1)]].
Proof. eexists. split; [reflexivity|]. split; reflexivity. Qed.

Lemma batch_paths_NoDup args (q : nat) :
  NoDup ((λ i, batch_path_of args (1 + Z.of_nat i)) <$> seq 0 q).
Proof.
  apply NoDup_fmap_2_strong; [|apply NoDup_seq].
  intros i j _ _ Heq. apply batch_path_of_inj in Heq; lia.
Qed.

(** C4 (as amended): in batch mode with batch size B > 0 the run writes
    exactly ceil(N/B) batch files; every file but the last holds exactly B
    entries and the last holds between 1 and B; the i-th file is named
    <base>_part<number>.json, the numbers running from 1 without a gap and
    being padded with zeros to at least five digits (exactly five below
    100000); the names are pairwise distinct, so each file is written once,
    as one JSON array; and the files in sequence order, put end to end, are
    the entries of the source records in order. *)
Theorem C4_batch_files fuel args F B get_total it :
  batch_size args = Some B →
  0 < B →
  Forall (throttling_stops F) it →
  (F + retries args < fuel)%nat →
  ∃ tr files,
    main fuel args get_total it = Some (tr, Z.of_nat (length it))
    ∧ dumps tr = files
    ∧ Z.of_nat (length files) = ceil_div (Z.of_nat (length it)) B
    ∧ (∀ i f, files !! i = Some f → (S i < length files)%nat →
              Z.of_nat (length f.2) = B)
    ∧ (∀ f, list.last files = Some f → 0 < Z.of_nat (length f.2) ≤ B)
    ∧ (∀ i f, files !! i = Some f →
         f.1 = joinpath (parent (json args))
                 (stem (json args) +:+ "_part" +:+ fmt_05d (Z.of_nat i + 1)
                    +:+ ".json")
         ∧ (5 ≤ String.length (fmt_05d (Z.of_nat i + 1)))%nat
         ∧ (Z.of_nat i + 1 < 100000 →
            String.length (fmt_05d (Z.of_nat i + 1)) = 5%nat))
    ∧ NoDup files.*1
    ∧ concat files.*2 = written_entries tr
    ∧ Forall2 (λ msg entry, ∃ evs, sink_entry fuel args msg = Some (entry, evs))
        it (concat files.*2)
    ∧ (∀ fs i f, files !! i = Some f →
         replay tr fs !! f.1 = Some (FJson (JList f.2))).
Proof.
  intros Hmode HB Hstop Hfuel.
  destruct (main_batch_spec fuel args B get_total it Hmode HB (all_return _ _ _ _ Hstop Hfuel))
    as (tr & Hmain & Hw & Hcat & Hnames & Hcount & Hfull & Hlast & Honly & _).
  assert (Hnd : NoDup (dumps tr).*1).
  { rewrite Hnames. apply batch_paths_NoDup. }
  exists tr, (dumps tr). split; [done|]. split; [done|]. split; [done|].
  split; [done|]. split; [done|]. split; [|split; [done|split; [|split]]].
  - intros i f Hf.
    assert (Hname : (dumps tr).*1 !! i = Some f.1) by (by rewrite list_lookup_fmap, Hf).
    rewrite Hnames, list_lookup_fmap in Hname.
    destruct (seq 0 (length (dumps tr)) !! i) as [j|] eqn:Hj; [|done].
    apply lookup_seq in Hj as [-> _]. simpl in Hname. injection Hname as <-.
    split; [unfold batch_path_of, batch_file_name; do 5 f_equal; lia|].
    apply fmt_05d_length. lia.
  - by rewrite Hcat, Hw.
  - rewrite Hcat. apply Forall2_entry_of. eapply list.Forall_impl; [exact Hstop|].
    intros msg Hmsg. by apply (sink_entry_returns fuel args msg F).
  - intros fs i [p records] Hf. simpl.
    apply replay_dumps; [done|done|]. by apply list_elem_of_lookup_2 in Hf.
Qed.

Lemma C4_witness :
  ∃ tr files,
    main 7 (batch_args 3) (Ok 4) sample_source
    = Some (tr, Z.of_nat (length sample_source))
    ∧ dumps tr = files
    ∧ Z.of_nat (length files) = ceil_div (Z.of_nat (length sample_source)) 3
    ∧ (∀ i f, files !! i = Some f → (S i < length files)%nat →
              Z.of_nat (length f.2) = 3)
    ∧ (∀ f, list.last files = Some f → 0 < Z.of_nat (length f.2) ≤ 3)
    ∧ (∀ i f, files !! i = Some f →
         f.1 = joinpath (parent (json (batch_args 3)))
                 (stem (json (batch_args 3)) +:+ "_part"
                    +:+ fmt_05d (Z.of_nat i + 1) +:+ ".json")
         ∧ (5 ≤ String.length (fmt_05d (Z.of_nat i + 1)))%nat
         ∧ (Z.of_nat i + 1 < 100000 →
            String.length (fmt_05d (Z.of_nat i + 1)) = 5%nat))
    ∧ NoDup files.*1
    ∧ concat files.*2 = written_entries tr
    ∧ Forall2 (λ msg entry, ∃ evs,
                 sink_entry 7 (batch_args 3) msg = Some (entry, evs))
        sample_source (concat files.*2)
    ∧ (∀ fs i f, files !! i = Some f →
         replay tr fs !! f.1 = Some (FJson (JList f.2))).
Proof.
  apply (C4_batch_files 7 (batch_args 3) 3 3 (Ok 4) sample_source).
  - reflexivity.
  - lia.
  - exact sample_source_throttling.
  - vm_compute. lia.
Defined.

(** Batches of one record: the file of the record at position [i] is
    numbered [i + 1]. *)
Lemma batch_of_one_names (n i : nat) :
  (i < n)%nat →
  ∃ tr,
    main 4 (batch_args 1) (Ok (Z.of_nat n)) (replicate n (plain_message 1))
    = Some (tr, Z.of_nat n)
    ∧ (dumps tr).*1 !! i = Some (batch_path_of (batch_args 1) (1 + Z.of_nat i)).
Proof.
  intros Hi.
  assert (Hstop : Forall (throttling_stops 0) (replicate n (plain_message 1))).
  { apply Forall_replicate. intros k s _. discriminate. }
  assert (Hfuel : (0 + retries (batch_args 1) < 4)%nat) by (vm_compute; lia).
  destruct (main_batch_spec 4 (batch_args 1) 1 (Ok (Z.of_nat n)) _ eq_refl
              ltac:(lia) (all_return _ _ _ _ Hstop Hfuel))
    as (tr & Hmain & _ & _ & Hnames & Hcount & _).
  rewrite length_replicate in Hmain, Hcount.
  exists tr. split; [exact Hmain|].
  assert (Hlen : length (dumps tr) = n).
  { unfold ceil_div in Hcount. rewrite Z.add_simpl_r, Z.div_1_r in Hcount. lia. }
  rewrite Hnames, Hlen, list_lookup_fmap, lookup_seq_lt by done. done.
Qed.

(** C4, as stated, fails on the width of the sequence number: with batches
    of one record, the file of the 100000th record is numbered with six
    digits. *)
Lemma C4_six_digit_sequence_number :
  ∃ tr,
    main 4 (batch_args 1) (Ok 100000)
      (replicate (Z.to_nat 100000) (plain_message 1))
    = Some (tr, 100000)
    ∧ (dumps tr).*1 !! Z.to_nat 99999 = Some "./messages_part100000.json"
    ∧ fmt_05d 100000 = "100000"
    ∧ String.length (fmt_05d 100000) = 6%nat.
Proof.
  destruct (batch_of_one_names (Z.to_nat 100000) (Z.to_nat 99999)) as (tr & Hmain & Hname).
  { apply Z2Nat.inj_lt; lia. }
  rewrite (Z2Nat.id 99999) in Hname by lia.
  rewrite (Z2Nat.id 100000) in Hmain by lia.
  exists tr. split; [exact Hmain|]. split; [exact Hname|].
  split; reflexivity.
Qed.

(** * Further properties of the run *)

(** ** The closed form of the loops *)

Lemma stream_loop_closed fuel args it :
  Forall (returns fuel args) it →
  ∀ written,
    stream_loop fuel args it written
    = Some (stream_trace fuel args it written, written + Z.of_nat (length it)).
Proof.
  induction 1 as [|msg it Hmsg _ IH]; intros written; simpl.
  - by rewrite Z.add_0_r.
  - rewrite (returns_sink_entry _ _ _ Hmsg). simpl. rewrite IH. simpl.
    unfold stream_record. rewrite <-!app_assoc. do 2 f_equal. lia.
Qed.

Lemma stream_loop_returns fuel args it :
  ∀ written tr final,
    stream_loop fuel args it written = Some (tr, final) →
    Forall (returns fuel args) it.
Proof.
  induction it as [|msg it IH]; intros written tr final; simpl; [done|].
  destruct (sink_entry fuel args msg) as [[line evs]|] eqn:Hmsg; simpl; [|done].
  destruct (stream_loop fuel args it (written + 1)) as [[tr' final']|] eqn:Hit;
    simpl; [|done].
  intros _. constructor; [unfold returns; by rewrite Hmsg|by eapply IH].
Qed.

Lemma batch_loop_closed fuel args bsize it :
  Forall (returns fuel args) it →
  ∀ written batch batch_idx,
    batch_loop fuel args bsize it written batch batch_idx
    = Some (batch_run fuel args bsize it written batch batch_idx).
Proof.
  induction 1 as [|msg it Hmsg _ IH]; intros written batch batch_idx; simpl; [done|].
  rewrite (returns_sink_entry _ _ _ Hmsg). simpl.
  destruct (decide _); rewrite IH; simpl; by destruct (batch_run _ _ _ _ _ _ _).
Qed.

Lemma batch_loop_returns fuel args bsize it :
  ∀ written batch batch_idx tr final,
    batch_loop fuel args bsize it written batch batch_idx = Some (tr, final) →
    Forall (returns fuel args) it.
Proof.
  induction it as [|msg it IH]; intros written batch batch_idx tr final; simpl; [done|].
  destruct (sink_entry fuel args msg) as [[line evs]|] eqn:Hmsg; simpl; [|done].
  destruct (decide _);
    (destruct (batch_loop fuel args bsize it _ _ _) as [[tr' final']|] eqn:Hit;
       simpl; [|done]);
    intros _; (constructor; [unfold returns; by rewrite Hmsg|by eapply IH]).
Qed.

Lemma batch_run_written fuel args bsize it :
  ∀ written batch batch_idx,
    written_of (batch_run fuel args bsize it written batch batch_idx).2
    = written + Z.of_nat (length it).
Proof.
  induction it as [|msg it IH]; intros written batch batch_idx; simpl; [lia|].
  destruct (decide _).
  - specialize (IH (written + 1) [] (batch_idx + 1)).
    destruct (batch_run _ _ _ _ _ _ _). simpl in *. lia.
  - specialize (IH (written + 1) (batch ++ [entry_of fuel args msg]) batch_idx).
    destruct (batch_run _ _ _ _ _ _ _). simpl in *. lia.
Qed.

(** The run completes exactly when every fetch returns, and then its trace
    is the closed form and its count the number of records. *)
Lemma main_closed fuel args get_total it tr written :
  main fuel args get_total it = Some (tr, written)
  ↔ Forall (returns fuel args) it
    ∧ tr = main_trace fuel args get_total it
    ∧ written = Z.of_nat (length it).
Proof.
  unfold main, main_trace. split.
  - destruct (batch_size args) as [B|]; [destruct (decide (0 < B))|].
    + destruct (batch_loop fuel args B it 0 [] 1) as [[tr' st]|] eqn:Hloop;
        simpl; [|done].
      pose proof (batch_loop_returns _ _ _ _ _ _ _ _ _ Hloop) as Hret.
      rewrite (batch_loop_closed _ _ _ _ Hret) in Hloop.
      pose proof (batch_run_written fuel args B it 0 [] 1) as Hw.
      destruct (batch_run fuel args B it 0 [] 1) as [tr0 st0].
      injection Hloop as -> ->. simpl in Hw. intros [= <- <-].
      split; [done|]. split; [done|]. lia.
    + destruct (stream_loop fuel args it 0) as [[tr' w]|] eqn:Hloop; simpl; [|done].
      pose proof (stream_loop_returns _ _ _ _ _ _ Hloop) as Hret.
      rewrite (stream_loop_closed _ _ _ Hret) in Hloop.
      injection Hloop as <- <-. intros [= <- <-]. done.
    + destruct (stream_loop fuel args it 0) as [[tr' w]|] eqn:Hloop; simpl; [|done].
      pose proof (stream_loop_returns _ _ _ _ _ _ Hloop) as Hret.
      rewrite (stream_loop_closed _ _ _ Hret) in Hloop.
      injection Hloop as <- <-. intros [= <- <-]. done.
  - intros (Hret & -> & ->).
    destruct (batch_size args) as [B|]; [destruct (decide (0 < B))|].
    + rewrite (batch_loop_closed _ _ _ _ Hret).
      pose proof (batch_run_written fuel args B it 0 [] 1) as Hw.
      destruct (batch_run fuel args B it 0 [] 1) as [tr0 st0]. simpl in *.
      rewrite Hw. unfold final_flush. by destruct (batch_of st0).
    + by rewrite (stream_loop_closed _ _ _ Hret).
    + by rewrite (stream_loop_closed _ _ _ Hret).
Qed.

(** ** Side-Effect Fetcher: what the attempt counter counts *)

Lemma count_calls_cons P msg n k :
  count_calls P msg n (S k)
  = ((if P (download_media msg n) then 1 else 0) + count_calls P msg (S n) k)%nat.
Proof.
  unfold count_calls. cbn [seq]. rewrite filter_cons.
  destruct (decide (P (download_media msg n) = true)) as [H|H].
  - by rewrite H.
  - by destruct (P (download_media msg n)).
Qed.

Lemma retry_loop_counts args msg :
  ∀ fuel attempt backoff n f,
    retry_loop fuel args msg attempt backoff n = Some f →
    attempt ≤ Z.max 0 (max_retries args) →
    ∃ k,
      download_calls (fetch_trace f) = seq n (S k)
      ∧ length (sleeps (fetch_trace f)) = k
      ∧ final_attempt f = attempt + Z.of_nat (count_calls is_failure msg n (S k))
      ∧ k = (count_calls is_throttle msg n k + count_calls is_failure msg n k)%nat
      ∧ match download_media msg (n + k) with
        | Ok fn =>
            outcome f = (Some (str_path fn), None)
            ∧ final_attempt f ≤ Z.max 0 (max_retries args)
        | Raise e =>
            outcome f = (None, Some (repr e))
            ∧ final_attempt f = Z.max 0 (max_retries args) + 1
            ∧ is_failure (Raise e) = true
        end.
Proof.
  induction fuel as [|fuel IH]; intros attempt backoff n f; simpl; [done|].
  intros Hf Ha.
  assert (Hstep : ∀ a b evs s,
    before (EDownload n :: ESleep s :: evs) <$> retry_loop fuel args msg a b (S n) = Some f →
    evs = [] →
    a ≤ Z.max 0 (max_retries args) →
    a = attempt + (if is_failure (download_media msg n) then 1 else 0) →
    (is_throttle (download_media msg n) || is_failure (download_media msg n)) = true →
    ∃ k,
      download_calls (fetch_trace f) = seq n (S k)
      ∧ length (sleeps (fetch_trace f)) = k
      ∧ final_attempt f = attempt + Z.of_nat (count_calls is_failure msg n (S k))
      ∧ k = (count_calls is_throttle msg n k + count_calls is_failure msg n k)%nat
      ∧ match download_media msg (n + k) with
        | Ok fn =>
            outcome f = (Some (str_path fn), None)
            ∧ final_attempt f ≤ Z.max 0 (max_retries args)
        | Raise e =>
            outcome f = (None, Some (repr e))
            ∧ final_attempt f = Z.max 0 (max_retries args) + 1
            ∧ is_failure (Raise e) = true
        end).
  { intros a b evs s Hloop -> Hle Hadd Hkind.
    destruct (retry_loop fuel args msg a b (S n)) as [f0|] eqn:H0; [|done].
    simpl in Hloop. injection Hloop as <-.
    destruct (IH _ _ _ _ H0 Hle) as (k & Hcalls & Hsl & Hfin & Hk & Hlast).
    exists (S k). simpl. unfold download_calls, sleeps in *. simpl.
    rewrite Hcalls, Hsl. split; [done|]. split; [done|].
    rewrite Nat.add_succ_r. split; [|split; [|exact Hlast]].
    - rewrite Hfin, (count_calls_cons _ _ n (S k)), Hadd.
      destruct (is_failure (download_media msg n)); lia.
    - rewrite !(count_calls_cons _ _ n k).
      destruct (download_media msg n) as [fn|[]]; simpl in *; try done; lia. }
  destruct (download_media msg n) as [fn|e] eqn:Hdl.
  { injection Hf as <-. exists 0%nat. simpl.
    rewrite Nat.add_0_r, Hdl, count_calls_cons, Hdl. simpl.
    unfold count_calls. simpl. repeat split; try done; lia. }
  destruct e as [name|what|s|descr];
    try (destruct (decide _) as [Hgt|Hle];
         [injection Hf as <-; exists 0%nat; simpl;
          rewrite Nat.add_0_r, Hdl, count_calls_cons, Hdl; simpl;
          unfold count_calls; simpl; repeat split; try done; lia
         |apply (Hstep _ _ [] _ Hf); [done|lia|simpl; lia|done]]).
  apply (Hstep _ _ [] _ Hf); [done|lia|simpl; lia|done].
Qed.

(** X1: what the fetcher returns determines, and is determined by, the calls
    it made.  The calls are numbered 0 to k without a gap, each of the first
    k raised and was followed by one sleep, k being the number of throttled
    calls plus the number of other failures among them; the attempt counter
    ends as the number of failures other than throttling among all calls and
    never exceeds max(0, R) + 1; the fetcher reports the path when the last
    call succeeded and the reason of the last error when that error took the
    counter beyond the budget. *)
Theorem X1_attempt_counter_counts_failures args msg dir fuel f :
  media_dir args = Some dir →
  download_with_retry fuel args msg = Some f →
  ∃ k,
    download_calls (fetch_trace f) = seq 0 (S k)
    ∧ length (sleeps (fetch_trace f)) = k
    ∧ final_attempt f = Z.of_nat (count_calls is_failure msg 0 (S k))
    ∧ k = (count_calls is_throttle msg 0 k + count_calls is_failure msg 0 k)%nat
    ∧ final_attempt f ≤ Z.max 0 (max_retries args) + 1
    ∧ match download_media msg k with
      | Ok fn =>
          outcome f = (Some (str_path fn), None)
          ∧ final_attempt f ≤ Z.max 0 (max_retries args)
      | Raise e =>
          outcome f = (None, Some (repr e))
          ∧ final_attempt f = Z.max 0 (max_retries args) + 1
          ∧ is_failure (Raise e) = true
      end.
Proof.
  intros Hdir. unfold download_with_retry. rewrite Hdir. intros Hf.
  destruct (retry_loop_counts args msg _ _ _ _ _ Hf) as (k & H1 & H2 & H3 & H4 & H5);
    [lia|].
  exists k. simpl in H5. rewrite Z.add_0_l in H3.
  split; [done|]. split; [done|]. split; [done|]. split; [done|].
  split; [|done].
  destruct (download_media msg k); lia.
Qed.

Lemma X1_witness :
  ∃ k,
    download_calls (fetch_trace
      {| outcome := (Some "media/photo_4.jpg", None); final_attempt := 0;
         fetch_trace := throttle_trace 0 [2; 2; 2] ++ [EDownload 3] |})
    = seq 0 (S k)
    ∧ length (sleeps (throttle_trace 0 [2; 2; 2] ++ [EDownload 3])) = k
    ∧ 0 = Z.of_nat (count_calls is_failure throttled_media_message 0 (S k))
    ∧ k = (count_calls is_throttle throttled_media_message 0 k
           + count_calls is_failure throttled_media_message 0 k)%nat
    ∧ 0 ≤ Z.max 0 (max_retries media_args) + 1
    ∧ match download_media throttled_media_message k with
      | Ok fn =>
          (Some "media/photo_4.jpg", None) = (Some (str_path fn), @None string)
          ∧ 0 ≤ Z.max 0 (max_retries media_args)
      | Raise e =>
          (Some "media/photo_4.jpg", None) = (@None string, Some (repr e))
          ∧ 0 = Z.max 0 (max_retries media_args) + 1
          ∧ is_failure (Raise e) = true
      end.
Proof.
  apply (X1_attempt_counter_counts_failures media_args throttled_media_message
           "media" 4).
  - reflexivity.
  - reflexivity.
Defined.

(** ** The sink holds what has been processed so far *)

Lemma stream_trace_app fuel args it1 it2 written :
  stream_trace fuel args (it1 ++ it2) written
  = stream_trace fuel args it1 written
    ++ stream_trace fuel args it2 (written + Z.of_nat (length it1)).
Proof.
  revert written. induction it1 as [|msg it1 IH]; intros written; simpl.
  - by rewrite Z.add_0_r.
  - rewrite IH, <-app_assoc. do 3 f_equal. lia.
Qed.

Lemma batch_run_app fuel args bsize it1 it2 :
  ∀ written batch batch_idx,
    batch_run fuel args bsize (it1 ++ it2) written batch batch_idx
    = let '(tr1, st1) := batch_run fuel args bsize it1 written batch batch_idx in
      let '(tr2, st2) := batch_run fuel args bsize it2 (written_of st1)
                           (batch_of st1) (batch_idx_of st1) in
      (tr1 ++ tr2, st2).
Proof.
  induction it1 as [|msg it1 IH]; intros written batch batch_idx; simpl.
  - by destruct (batch_run _ _ _ it2 _ _ _).
  - destruct (decide _); rewrite IH;
      destruct (batch_run _ _ _ it1 _ _ _) as [tr1 st1];
      destruct (batch_run _ _ _ it2 _ _ _) as [tr2 st2];
      f_equal; rewrite <-app_assoc; f_equal; simpl; by rewrite <-app_assoc.
Qed.

(** X2: streaming hands each record to the output file before it turns to
    the next one.  When the run over a source has processed a first part of
    it, its trace so far is the trace of the loop over that part alone, and
    the output file is open with exactly the lines of those records written
    to it, in order, whatever the file held before and whatever the rest of
    the source brings.  The file is closed only after the last record, and
    then holds the lines of all records. *)
Theorem X2_streaming_prefix_written fuel args F get_total it1 it2 :
  batching args = false →
  Forall (throttling_stops F) (it1 ++ it2) →
  (F + retries args < fuel)%nat →
  ∃ tr1 tr2,
    main fuel args get_total (it1 ++ it2)
    = Some ([EPbarOpen (compute_total args get_total);
             EOpenW (path_str (json args))] ++ tr1 ++ tr2
              ++ [ECloseW (path_str (json args)); EPbarClose],
            Z.of_nat (length (it1 ++ it2)))
    ∧ stream_loop fuel args it1 0 = Some (tr1, Z.of_nat (length it1))
    ∧ stream_loop fuel args it2 (Z.of_nat (length it1))
      = Some (tr2, Z.of_nat (length (it1 ++ it2)))
    ∧ written_entries tr1 = entry_of fuel args <$> it1
    ∧ (∀ fs, replay ([EPbarOpen (compute_total args get_total);
                      EOpenW (path_str (json args))] ++ tr1) fs
               !! path_str (json args)
             = Some (FOpen (entry_of fuel args <$> it1)))
    ∧ (∀ fs, replay ([EPbarOpen (compute_total args get_total);
                      EOpenW (path_str (json args))] ++ tr1 ++ tr2
                       ++ [ECloseW (path_str (json args)); EPbarClose]) fs
               !! path_str (json args)
             = Some (FLines (entry_of fuel args <$> it1 ++ it2))).
Proof.
  intros Hmode Hstop Hfuel.
  pose proof (all_return _ _ _ _ Hstop Hfuel) as Hret.
  apply Forall_app in Hret as Hret12. destruct Hret12 as [Hret1 Hret2].
  destruct (stream_loop_spec fuel args it1 Hret1 0)
    as (tr1 & Hloop1 & Hw1 & _ & Happ1 & _).
  destruct (stream_loop_spec fuel args it2 Hret2 (Z.of_nat (length it1)))
    as (tr2 & Hloop2 & Hw2 & _ & Happ2 & _).
  rewrite Z.add_0_l in Hloop1.
  assert (Hlen : Z.of_nat (length it1) + Z.of_nat (length it2)
                 = Z.of_nat (length (it1 ++ it2))).
  { rewrite length_app. lia. }
  rewrite Hlen in Hloop2.
  assert (Htr1 : tr1 = stream_trace fuel args it1 0).
  { rewrite (stream_loop_closed _ _ _ Hret1) in Hloop1. by injection Hloop1. }
  assert (Htr2 : tr2 = stream_trace fuel args it2 (Z.of_nat (length it1))).
  { rewrite (stream_loop_closed _ _ _ Hret2) in Hloop2. by injection Hloop2. }
  exists tr1, tr2.
  split; [|split; [done|split; [done|split; [done|split]]]].
  - apply main_closed. split; [done|]. split; [|done].
    unfold main_trace, batching in *.
    destruct (batch_size args) as [b|];
      [rewrite decide_False by (by apply bool_decide_eq_false in Hmode)|];
      by rewrite stream_trace_app, Z.add_0_l, <-app_assoc, Htr1, Htr2.
  - intros fs. rewrite replay_app. simpl.
    rewrite (replay_appends _ _ Happ1 _ []) by apply lookup_insert_eq.
    by rewrite lookup_insert_eq, Hw1.
  - intros fs. rewrite !replay_app. simpl.
    rewrite (replay_appends _ _ Happ1 _ []) by apply lookup_insert_eq.
    rewrite (replay_appends _ _ Happ2 _ (written_entries tr1))
      by apply lookup_insert_eq.
    rewrite lookup_insert_eq, !insert_insert_eq, lookup_insert_eq, Hw1, Hw2.
    by rewrite fmap_app.
Qed.

Lemma X2_witness :
  ∃ tr1 tr2,
    main 7 media_args (Ok 4) ([plain_message 1; broken_media_message]
                              ++ [throttled_media_message; no_id_message])
    = Some ([EPbarOpen (compute_total media_args (Ok 4));
             EOpenW (path_str (json media_args))] ++ tr1 ++ tr2
              ++ [ECloseW (path_str (json media_args)); EPbarClose],
            Z.of_nat (length ([plain_message 1; broken_media_message]
                              ++ [throttled_media_message; no_id_message])))
    ∧ stream_loop 7 media_args [plain_message 1; broken_media_message] 0
      = Some (tr1, Z.of_nat (length [plain_message 1; broken_media_message]))
    ∧ stream_loop 7 media_args [throttled_media_message; no_id_message]
        (Z.of_nat (length [plain_message 1; broken_media_message]))
      = Some (tr2, Z.of_nat (length ([plain_message 1; broken_media_message]
                                     ++ [throttled_media_message; no_id_message])))
    ∧ written_entries tr1
      = entry_of 7 media_args <$> [plain_message 1; broken_media_message]
    ∧ (∀ fs, replay ([EPbarOpen (compute_total media_args (Ok 4));
                      EOpenW (path_str (json media_args))] ++ tr1) fs
               !! path_str (json media_args)
             = Some (FOpen (entry_of 7 media_args
                              <$> [plain_message 1; broken_media_message])))
    ∧ (∀ fs, replay ([EPbarOpen (compute_total media_args (Ok 4));
                      EOpenW (path_str (json media_args))] ++ tr1 ++ tr2
                       ++ [ECloseW (path_str (json media_args)); EPbarClose]) fs
               !! path_str (json media_args)
             = Some (FLines (entry_of 7 media_args
                               <$> [plain_message 1; broken_media_message]
                                   ++ [throttled_media_message; no_id_message]))).
Proof.
  apply (X2_streaming_prefix_written 7 media_args 3 (Ok 4)).
  - reflexivity.
  - exact sample_source_throttling.
  - vm_compute. lia.
Defined.

(** X3: batching keeps the incomplete batch in memory.  When the run over a
    source has processed a first part of k records, the batch files written
    so far hold exactly the first B * (k div B) entries, B per file, and the
    remaining k mod B entries are pending, in no file yet. *)
Theorem X3_batch_pending_not_on_disk fuel args F B get_total it1 it2 :
  batch_size args = Some B →
  0 < B →
  Forall (throttling_stops F) (it1 ++ it2) →
  (F + retries args < fuel)%nat →
  ∃ tr1 st1 tr2,
    batch_loop fuel args B it1 0 [] 1 = Some (tr1, st1)
    ∧ main fuel args get_total (it1 ++ it2)
      = Some ([EPbarOpen (compute_total args get_total)] ++ tr1 ++ tr2
                ++ [EPbarClose],
              Z.of_nat (length (it1 ++ it2)))
    ∧ written_entries tr1 = concat (dumps tr1).*2
    ∧ Z.of_nat (length (dumps tr1)) = Z.of_nat (length it1) `div` B
    ∧ Forall (λ d, Z.of_nat (length d.2) = B) (dumps tr1)
    ∧ concat (dumps tr1).*2
      = take (Z.to_nat (B * (Z.of_nat (length it1) `div` B)))
          (entry_of fuel args <$> it1)
    ∧ batch_of st1
      = drop (Z.to_nat (B * (Z.of_nat (length it1) `div` B)))
          (entry_of fuel args <$> it1)
    ∧ Z.of_nat (length (batch_of st1)) = Z.of_nat (length it1) `mod` B.
Proof.
  intros Hmode HB Hstop Hfuel.
  assert (Hret : Forall (returns fuel args) (it1 ++ it2)).
  { eapply list.Forall_impl; [exact Hstop|].
    intros msg Hmsg. by apply (throttling_stops_returns fuel args msg F). }
  apply Forall_app in Hstop as [Hstop1 _].
  destruct (batch_loop_spec fuel args B it1 HB
              (all_return _ _ _ _ Hstop1 Hfuel) 0 [] 1)
    as (tr1 & st1 & Hloop & Hwr & Hcat & Hw & Hfull & Hlast & _); [simpl; lia|].
  simpl in Hcat.
  assert (Hlen : Z.of_nat (length it1)
                 = B * Z.of_nat (length (dumps tr1)) + Z.of_nat (length (batch_of st1))).
  { apply (f_equal length) in Hcat. rewrite length_fmap, length_app in Hcat.
    rewrite Hcat, Nat2Z.inj_add. f_equal. by apply length_concat_full. }
  assert (Hq : Z.of_nat (length (dumps tr1)) = Z.of_nat (length it1) `div` B).
  { apply (Z.div_unique _ _ _ (Z.of_nat (length (batch_of st1)))); [lia|done]. }
  assert (Hr : Z.of_nat (length (batch_of st1)) = Z.of_nat (length it1) `mod` B).
  { apply (Z.mod_unique _ _ (Z.of_nat (length (dumps tr1)))); [lia|done]. }
  assert (Hcut : Z.to_nat (B * (Z.of_nat (length it1) `div` B))
                 = length (concat (dumps tr1).*2)).
  { rewrite <-Hq. pose proof (length_concat_full B _ Hfull). lia. }
  pose proof (proj1 (proj1 (list.Forall_app _ _ _) Hret)) as Hret1.
  rewrite (batch_loop_closed _ _ _ _ Hret1) in Hloop.
  exists tr1, st1.
  destruct (batch_run fuel args B it2 (written_of st1) (batch_of st1)
              (batch_idx_of st1)) as [tr2 st2] eqn:Hrun2.
  exists (tr2 ++ final_flush args st2).
  split; [by rewrite (batch_loop_closed _ _ _ _ Hret1)|].
  split.
  { apply main_closed. split; [done|]. split; [|done].
    unfold main_trace. rewrite Hmode, decide_True by done.
    rewrite batch_run_app. injection Hloop as Hloop. rewrite Hloop, Hrun2.
    by rewrite <-!app_assoc. }
  split; [done|]. split; [done|]. split; [done|].
  rewrite Hcat, Hcut. split; [by rewrite take_app_length|].
  split; [by rewrite drop_app_length|done].
Qed.

Lemma X3_witness :
  ∃ tr1 st1 tr2,
    batch_loop 7 (batch_args 3) 3 [plain_message 1; broken_media_message] 0 [] 1
    = Some (tr1, st1)
    ∧ main 7 (batch_args 3) (Ok 4)
        ([plain_message 1; broken_media_message]
         ++ [throttled_media_message; no_id_message])
      = Some ([EPbarOpen (compute_total (batch_args 3) (Ok 4))] ++ tr1 ++ tr2
                ++ [EPbarClose],
              Z.of_nat (length ([plain_message 1; broken_media_message]
                                ++ [throttled_media_message; no_id_message])))
    ∧ written_entries tr1 = concat (dumps tr1).*2
    ∧ Z.of_nat (length (dumps tr1))
      = Z.of_nat (length [plain_message 1; broken_media_message]) `div` 3
    ∧ Forall (λ d, Z.of_nat (length d.2) = 3) (dumps tr1)
    ∧ concat (dumps tr1).*2
      = take (Z.to_nat (3 * (Z.of_nat (length [plain_message 1; broken_media_message])
                               `div` 3)))
          (entry_of 7 (batch_args 3) <$> [plain_message 1; broken_media_message])
    ∧ batch_of st1
      = drop (Z.to_nat (3 * (Z.of_nat (length [plain_message 1; broken_media_message])
                               `div` 3)))
          (entry_of 7 (batch_args 3) <$> [plain_message 1; broken_media_message])
    ∧ Z.of_nat (length (batch_of st1))
      = Z.of_nat (length [plain_message 1; broken_media_message]) `mod` 3.
Proof.
  apply (X3_batch_pending_not_on_disk 7 (batch_args 3) 3 3 (Ok 4)).
  - reflexivity.
  - lia.
  - exact sample_source_throttling.
  - vm_compute. lia.
Defined.

(** ** What the trace of a run consists of *)

Lemma events_of_fetch fuel args msg : Forall is_fetch_event (events_of fuel args msg).
Proof.
  unfold events_of.
  destruct (sink_entry fuel args msg) as [[entry evs]|] eqn:Hmsg; [|done].
  by destruct (sink_entry_shape _ _ _ _ _ Hmsg).
Qed.

Lemma download_calls_app tr1 tr2 :
  download_calls (tr1 ++ tr2) = download_calls tr1 ++ download_calls tr2.
Proof. unfold download_calls. apply omap_app. Qed.

Lemma pbar_trace_app tr1 tr2 : pbar_trace (tr1 ++ tr2) = pbar_trace tr1 ++ pbar_trace tr2.
Proof. unfold pbar_trace. apply omap_app. Qed.

Lemma fetch_events_no_pbar evs : Forall is_fetch_event evs → pbar_trace evs = [].
Proof. induction 1 as [|[] evs Hev _ IH]; done. Qed.

Lemma sleeps_no_download evs :
  Forall is_sleep evs → download_calls evs = [] ∧ pbar_trace evs = [].
Proof. induction 1 as [|[] evs Hev _ [IH1 IH2]]; done. Qed.

Lemma stream_trace_obs fuel args it :
  ∀ written,
    written_entries (stream_trace fuel args it written) = entry_of fuel args <$> it
    ∧ download_calls (stream_trace fuel args it written)
      = it ≫= (λ msg, download_calls (events_of fuel args msg))
    ∧ pbar_trace (stream_trace fuel args it written)
      = replicate (length it) EPbarUpdate.
Proof.
  induction it as [|msg it IH]; intros written; [done|].
  destruct (IH (written + 1)) as (IH1 & IH2 & IH3).
  destruct (fetch_events_silent _ (events_of_fetch fuel args msg)) as (Hw0 & _).
  destruct (sleeps_silent _ (maybe_rate_sleep_sleeps args (written + 1))) as [Hsf _].
  destruct (fetch_events_silent _ Hsf) as (Hw1 & _).
  destruct (sleeps_no_download _ (maybe_rate_sleep_sleeps args (written + 1)))
    as [Hd1 Hp1].
  cbn [stream_trace]. unfold stream_record.
  rewrite !written_entries_app, !download_calls_app, !pbar_trace_app.
  rewrite Hw0, Hw1, IH1, Hd1, Hp1, IH2, IH3.
  rewrite (fetch_events_no_pbar _ (events_of_fetch fuel args msg)).
  split; [done|]. split; [|done].
  unfold download_calls at 2. simpl. by rewrite app_nil_r.
Qed.

Lemma batch_run_obs fuel args bsize it :
  ∀ written batch batch_idx,
    written_entries (batch_run fuel args bsize it written batch batch_idx).1
      ++ batch_of (batch_run fuel args bsize it written batch batch_idx).2
    = batch ++ (entry_of fuel args <$> it)
    ∧ download_calls (batch_run fuel args bsize it written batch batch_idx).1
      = it ≫= (λ msg, download_calls (events_of fuel args msg))
    ∧ pbar_trace (batch_run fuel args bsize it written batch batch_idx).1
      = replicate (length it) EPbarUpdate.
Proof.
  induction it as [|msg it IH]; intros written batch batch_idx.
  { simpl. by rewrite app_nil_r. }
  destruct (fetch_events_silent _ (events_of_fetch fuel args msg)) as (Hw0 & _).
  destruct (sleeps_silent _ (maybe_rate_sleep_sleeps args (written + 1))) as [Hsf _].
  destruct (fetch_events_silent _ Hsf) as (Hw1 & _).
  destruct (sleeps_no_download _ (maybe_rate_sleep_sleeps args (written + 1)))
    as [Hd1 Hp1].
  pose proof (fetch_events_no_pbar _ (events_of_fetch fuel args msg)) as Hp0.
  cbn [batch_run]. destruct (decide _).
  - destruct (IH (written + 1) [] (batch_idx + 1)) as (IH1 & IH2 & IH3).
    destruct (batch_run fuel args bsize it (written + 1) [] (batch_idx + 1))
      as [tr st]. cbn [fst snd] in *.
    rewrite !written_entries_app, !download_calls_app, !pbar_trace_app.
    rewrite Hw0, Hw1, Hd1, Hp1, Hp0, IH2, IH3.
    split; [|split; [|done]].
    + unfold written_entries at 1 2. simpl. rewrite !app_nil_r.
      rewrite <-!app_assoc. f_equal. simpl. f_equal. exact IH1.
    + unfold download_calls at 2 3. simpl. done.
  - destruct (IH (written + 1) (batch ++ [entry_of fuel args msg]) batch_idx)
      as (IH1 & IH2 & IH3).
    destruct (batch_run fuel args bsize it (written + 1) _ batch_idx)
      as [tr st]. cbn [fst snd] in *.
    rewrite !written_entries_app, !download_calls_app, !pbar_trace_app.
    rewrite Hw0, Hw1, Hd1, Hp1, Hp0, IH2, IH3.
    split; [|split; [|done]].
    + unfold written_entries at 1. simpl. rewrite IH1, <-app_assoc. done.
    + unfold download_calls at 2. simpl. done.
Qed.

Lemma main_trace_obs fuel args get_total it :
  written_entries (main_trace fuel args get_total it) = entry_of fuel args <$> it
  ∧ download_calls (main_trace fuel args get_total it)
    = it ≫= (λ msg, download_calls (events_of fuel args msg))
  ∧ pbar_trace (main_trace fuel args get_total it)
    = [EPbarOpen (compute_total args get_total)]
      ++ replicate (length it) EPbarUpdate ++ [EPbarClose].
Proof.
  assert (Hstream :
    written_entries ([EPbarOpen (compute_total args get_total)]
        ++ [EOpenW (path_str (json args))] ++ stream_trace fuel args it 0
        ++ [ECloseW (path_str (json args))] ++ [EPbarClose])
      = entry_of fuel args <$> it
    ∧ download_calls ([EPbarOpen (compute_total args get_total)]
        ++ [EOpenW (path_str (json args))] ++ stream_trace fuel args it 0
        ++ [ECloseW (path_str (json args))] ++ [EPbarClose])
      = it ≫= (λ msg, download_calls (events_of fuel args msg))
    ∧ pbar_trace ([EPbarOpen (compute_total args get_total)]
        ++ [EOpenW (path_str (json args))] ++ stream_trace fuel args it 0
        ++ [ECloseW (path_str (json args))] ++ [EPbarClose])
      = [EPbarOpen (compute_total args get_total)]
        ++ replicate (length it) EPbarUpdate ++ [EPbarClose]).
  { destruct (stream_trace_obs fuel args it 0) as (H1 & H2 & H3).
    rewrite !written_entries_app, !download_calls_app, !pbar_trace_app.
    rewrite H1, H2, H3.
    split; [|split]; [unfold written_entries|unfold download_calls|unfold pbar_trace];
      simpl; by rewrite ?app_nil_r. }
  unfold main_trace.
  destruct (batch_size args) as [B|]; [destruct (decide (0 < B))|]; try done.
  destruct (batch_run_obs fuel args B it 0 [] 1) as (H1 & H2 & H3).
  destruct (batch_run fuel args B it 0 [] 1) as [tr st]. cbn [fst snd] in *.
  assert (Hflush : written_entries (final_flush args st) = batch_of st
                   ∧ download_calls (final_flush args st) = []
                   ∧ pbar_trace (final_flush args st) = []).
  { unfold final_flush. destruct (batch_of st); [done|].
    unfold written_entries. simpl. by rewrite app_nil_r. }
  destruct Hflush as (F1 & F2 & F3).
  rewrite !written_entries_app, !download_calls_app, !pbar_trace_app.
  rewrite F1, F2, F3, H2, H3.
  change (written_entries [EPbarOpen (compute_total args get_total)]) with (@nil JSON).
  change (written_entries [EPbarClose]) with (@nil JSON).
  change (download_calls [EPbarOpen (compute_total args get_total)]) with (@nil nat).
  change (download_calls [EPbarClose]) with (@nil nat).
  change (pbar_trace [EPbarOpen (compute_total args get_total)])
    with [EPbarOpen (compute_total args get_total)].
  change (pbar_trace [EPbarClose]) with [EPbarClose].
  rewrite !app_nil_r. simpl. split; [exact H1|]. split; done.
Qed.

(** ** When the fetcher is invoked *)

Lemma sink_entry_without_fetch fuel args msg :
  media_dir args = None ∨ getattr (media msg) None = None →
  sink_entry fuel args msg
  = Some (JObj (try_except (to_serializable msg) (placeholder msg)), []).
Proof.
  intros Hno. unfold sink_entry, build_record.
  destruct (to_serializable msg) as [rec|e]; simpl; [|done].
  rewrite decide_False; [done|].
  intros [[dir Hdir] [m Hm]]. destruct Hno; congruence.
Qed.

(** X4: without a media directory (none given, or the empty string) the run
    needs nothing from the source's downloads: it completes for every
    source, also one whose downloads would be throttled for ever, it never
    calls [download_media], and every entry it writes is the normalized
    record or the placeholder as it is, without [media_path] and
    [media_error]. *)
Theorem X4_no_media_dir_no_download fuel args get_total it :
  media_dir args = None →
  ∃ tr,
    main fuel args get_total it = Some (tr, Z.of_nat (length it))
    ∧ download_calls tr = []
    ∧ written_entries tr
      = (λ msg, JObj (try_except (to_serializable msg) (placeholder msg))) <$> it
    ∧ Forall (λ entry, ∃ d, entry = JObj d
                            ∧ dict_get "media_path" d = None
                            ∧ dict_get "media_error" d = None)
        (written_entries tr).
Proof.
  intros Hdir.
  assert (Hentry : ∀ msg, sink_entry fuel args msg
    = Some (JObj (try_except (to_serializable msg) (placeholder msg)), [])).
  { intros msg. apply sink_entry_without_fetch. by left. }
  assert (Hret : Forall (returns fuel args) it).
  { apply Forall_forall. intros msg _. unfold returns. by rewrite Hentry. }
  destruct (main_trace_obs fuel args get_total it) as (Hw & Hd & _).
  exists (main_trace fuel args get_total it).
  split; [by apply main_closed|].
  assert (Hw' : written_entries (main_trace fuel args get_total it)
    = (λ msg, JObj (try_except (to_serializable msg) (placeholder msg))) <$> it).
  { rewrite Hw. apply list_fmap_ext. intros _ msg _.
    unfold entry_of. by rewrite Hentry. }
  split; [|split; [done|]].
  - rewrite Hd. clear -Hentry. induction it as [|msg it IH]; [done|].
    rewrite bind_cons, IH. unfold events_of. by rewrite Hentry.
  - rewrite Hw'. apply Forall_fmap, Forall_forall. intros msg _. simpl.
    eexists. split; [done|].
    destruct (to_serializable msg) as [rec|e] eqn:Hrec; simpl.
    + by apply (to_serializable_no_media_keys msg).
    + done.
Qed.

Lemma X4_witness :
  ∃ tr,
    main 0 empty_dir_args (Ok 2) [always_throttled_message; no_id_message]
    = Some (tr, Z.of_nat (length [always_throttled_message; no_id_message]))
    ∧ download_calls tr = []
    ∧ written_entries tr
      = (λ msg, JObj (try_except (to_serializable msg) (placeholder msg)))
          <$> [always_throttled_message; no_id_message]
    ∧ Forall (λ entry, ∃ d, entry = JObj d
                            ∧ dict_get "media_path" d = None
                            ∧ dict_get "media_error" d = None)
        (written_entries tr).
Proof.
  apply (X4_no_media_dir_no_download 0 empty_dir_args (Ok 2)
           [always_throttled_message; no_id_message]).
  reflexivity.
Defined.

(** X5: the fetcher is invoked for a record exactly when a media directory
    is configured, the record has media and its normalization succeeded; its
    calls of [download_media] are then numbered from 0 without a gap.  A
    record whose normalization fails is never downloaded, even if it has
    media, and neither is a record without media.  The download calls of the
    whole run are those of its records, in the order of the source. *)
Theorem X5_fetch_only_normalized_media fuel args get_total it tr written :
  main fuel args get_total it = Some (tr, written) →
  download_calls tr = it ≫= (λ msg, download_calls (events_of fuel args msg))
  ∧ Forall (λ msg,
      match to_serializable msg with
      | Ok _ =>
          if decide (is_Some (media_dir args) ∧ is_Some (getattr (media msg) None))
          then ∃ k, download_calls (events_of fuel args msg) = seq 0 (S k)
          else events_of fuel args msg = []
      | Raise e =>
          events_of fuel args msg = []
          ∧ entry_of fuel args msg = JObj (placeholder msg e)
      end) it.
Proof.
  intros Hmain. apply main_closed in Hmain as (Hret & -> & ->).
  destruct (main_trace_obs fuel args get_total it) as (_ & Hd & _).
  split; [done|].
  eapply list.Forall_impl; [exact Hret|]. intros msg Hmsg.
  unfold returns, events_of, entry_of, sink_entry, build_record in *.
  destruct (to_serializable msg) as [rec|e]; simpl in *; [|done].
  destruct (decide _) as [[[dir Hdir] _]|_]; simpl in *; [|done].
  destruct (download_with_retry fuel args msg) as [f|] eqn:Hf; simpl in *;
    [|by destruct Hmsg].
  unfold download_with_retry in Hf. rewrite Hdir in Hf.
  destruct (retry_loop_counts args msg _ _ _ _ _ Hf) as (k & Hcalls & _); [lia|].
  exists k. by destruct (outcome f).
Qed.

Lemma X5_witness :
  download_calls (main_trace 7 media_args (Ok 4) sample_source)
  = sample_source ≫= (λ msg, download_calls (events_of 7 media_args msg))
  ∧ Forall (λ msg,
      match to_serializable msg with
      | Ok _ =>
          if decide (is_Some (media_dir media_args)
                     ∧ is_Some (getattr (media msg) None))
          then ∃ k, download_calls (events_of 7 media_args msg) = seq 0 (S k)
          else events_of 7 media_args msg = []
      | Raise e =>
          events_of 7 media_args msg = []
          ∧ entry_of 7 media_args msg = JObj (placeholder msg e)
      end) sample_source.
Proof.
  apply (X5_fetch_only_normalized_media 7 media_args (Ok 4) sample_source
           (main_trace 7 media_args (Ok 4) sample_source) 4).
  reflexivity.
Defined.

(** ** Progress bar and pacing over a whole run *)

(** X6: the progress bar is opened once, before anything else, with the
    computed total, updated exactly once per record of the source, and
    closed once, as the last effect of the run; the count that the run
    reports is the number of records. *)
Theorem X6_progress_bar_protocol fuel args get_total it tr written :
  main fuel args get_total it = Some (tr, written) →
  pbar_trace tr
  = [EPbarOpen (compute_total args get_total)]
    ++ replicate (length it) EPbarUpdate ++ [EPbarClose]
  ∧ head tr = Some (EPbarOpen (compute_total args get_total))
  ∧ list.last tr = Some EPbarClose
  ∧ written = Z.of_nat (length it).
Proof.
  intros Hmain. apply main_closed in Hmain as (_ & -> & ->).
  destruct (main_trace_obs fuel args get_total it) as (_ & _ & Hp).
  split; [done|]. split; [|split; [|done]].
  - unfold main_trace.
    destruct (batch_size args) as [B|]; [destruct (decide (0 < B))|]; try done.
    by destruct (batch_run _ _ _ _ _ _ _).
  - unfold main_trace.
    destruct (batch_size args) as [B|]; [destruct (decide (0 < B))|].
    + destruct (batch_run _ _ _ _ _ _ _) as [tr0 st0].
      by rewrite !app_assoc, last_snoc.
    + by rewrite !app_assoc, last_snoc.
    + by rewrite !app_assoc, last_snoc.
Qed.

Lemma X6_witness :
  pbar_trace (main_trace 7 (batch_args 3) (Ok 4) sample_source)
  = [EPbarOpen (compute_total (batch_args 3) (Ok 4))]
    ++ replicate (length sample_source) EPbarUpdate ++ [EPbarClose]
  ∧ head (main_trace 7 (batch_args 3) (Ok 4) sample_source)
    = Some (EPbarOpen (compute_total (batch_args 3) (Ok 4)))
  ∧ list.last (main_trace 7 (batch_args 3) (Ok 4) sample_source) = Some EPbarClose
  ∧ 4 = Z.of_nat (length sample_source).
Proof.
  apply (X6_progress_bar_protocol 7 (batch_args 3) (Ok 4) sample_source
           (main_trace 7 (batch_args 3) (Ok 4) sample_source) 4).
  reflexivity.
Defined.

Lemma div_step (E w : Z) :
  0 < E → 0 ≤ w →
  (w + 1) `div` E = w `div` E + (if decide ((w + 1) `mod` E = 0) then 1 else 0).
Proof.
  intros HE Hw. destruct (decide ((w + 1) `mod` E = 0)) as [H|H];
    Z.to_euclidean_division_equations; nia.
Qed.

Lemma per_record_total args (it : list Message) :
  concat (imap (λ _ _, per_record_sleep args) it)
  = if decide (0 < sleep_per_msg args)%Qc
    then replicate (length it) (ESleep (sleep_per_msg args))
    else [].
Proof.
  unfold per_record_sleep.
  induction it as [|msg it IH]; [by destruct (decide _)|].
  rewrite imap_cons. cbn [concat]. unfold compose. rewrite IH.
  by destruct (decide _).
Qed.

Lemma interval_total args (it : list Message) :
  ∀ w0, 0 ≤ w0 →
    ∃ n,
      concat (imap (λ k _, interval_sleep args (w0 + Z.of_nat k + 1)) it)
      = (if decide (0 < sleep_every args ∧ (0 < sleep_seconds args)%Qc)
         then replicate n (ESleep (sleep_seconds args))
         else [])
      ∧ (0 < sleep_every args →
         Z.of_nat n = (w0 + Z.of_nat (length it)) `div` sleep_every args
                      - w0 `div` sleep_every args).
Proof.
  induction it as [|msg it IH]; intros w0 Hw0.
  { exists 0%nat. simpl. split; [by destruct (decide _)|]. intros _.
    rewrite Z.add_0_r. lia. }
  destruct (IH (w0 + 1)) as (n & Hn & Hcount); [lia|].
  rewrite imap_cons. cbn [concat].
  rewrite (imap_ext _ (λ k _, interval_sleep args ((w0 + 1) + Z.of_nat k + 1)))
    by (intros k m _; simpl; f_equal; lia).
  rewrite Hn. replace (w0 + Z.of_nat 0 + 1) with (w0 + 1) by lia.
  rewrite length_cons, Nat2Z.inj_succ.
  replace (w0 + Z.succ (Z.of_nat (length it)))
    with (w0 + 1 + Z.of_nat (length it)) by lia.
  unfold interval_sleep.
  destruct (decide ((w0 + 1) `mod` sleep_every args = 0)) as [Hm|Hm].
  - exists (S n). split.
    + destruct (decide (0 < sleep_every args ∧ (0 < sleep_seconds args)%Qc))
        as [[HE Hs]|Hoff].
      * by rewrite decide_True.
      * by rewrite decide_False by (intros (? & ? & _); by apply Hoff).
    + intros HE.
      rewrite Nat2Z.inj_succ, (Hcount HE), (div_step (sleep_every args) w0) by done.
      rewrite decide_True by done. lia.
  - exists n. split.
    + rewrite decide_False by (by intros (_ & _ & ?)). done.
    + intros HE.
      rewrite (Hcount HE), (div_step (sleep_every args) w0) by done.
      rewrite decide_False by done. lia.
Qed.

Lemma concat_imap_app {A} (a b : nat → A → list event) (l : list A) :
  concat (imap (λ k x, a k x ++ b k x) l)
  ≡ₚ concat (imap a l) ++ concat (imap b l).
Proof.
  revert a b. induction l as [|x l IH]; intros a b; [done|].
  rewrite !imap_cons. cbn [concat].
  etrans; [apply Permutation_app; [done|apply (IH (a ∘ S) (b ∘ S))]|].
  rewrite <-!app_assoc. apply Permutation_app; [done|].
  apply Permutation_app_swap_app.
Qed.

(** X7: after each record the pacing controller sleeps the per-record delay
    and then, after every E-th record, the interval delay.  Over a run of N
    records that makes N sleeps of the per-record delay, if that delay is
    positive, and N div E sleeps of the interval delay, if the interval E
    and that delay are positive; the pacing sleeps of the run are these and
    no others. *)
Theorem X7_pacing_totals fuel args F get_total it :
  Forall (throttling_stops F) it →
  (F + retries args < fuel)%nat →
  ∃ tr,
    main fuel args get_total it = Some (tr, Z.of_nat (length it))
    ∧ pacing_sleeps tr
      = imap (λ k _, per_record_sleep args
                       ++ interval_sleep args (Z.of_nat k + 1)) it
    ∧ concat (imap (λ _ _, per_record_sleep args) it)
      = (if decide (0 < sleep_per_msg args)%Qc
         then replicate (length it) (ESleep (sleep_per_msg args))
         else [])
    ∧ concat (imap (λ k _, interval_sleep args (Z.of_nat k + 1)) it)
      = (if decide (0 < sleep_every args ∧ (0 < sleep_seconds args)%Qc)
         then replicate (Z.to_nat (Z.of_nat (length it) `div` sleep_every args))
                (ESleep (sleep_seconds args))
         else [])
    ∧ concat (pacing_sleeps tr)
      ≡ₚ (if decide (0 < sleep_per_msg args)%Qc
          then replicate (length it) (ESleep (sleep_per_msg args))
          else [])
         ++ (if decide (0 < sleep_every args ∧ (0 < sleep_seconds args)%Qc)
             then replicate (Z.to_nat (Z.of_nat (length it) `div` sleep_every args))
                    (ESleep (sleep_seconds args))
             else []).
Proof.
  intros Hstop Hfuel.
  pose proof (all_return _ _ _ _ Hstop Hfuel) as Hret.
  assert (Hpace : ∃ tr,
    main fuel args get_total it = Some (tr, Z.of_nat (length it))
    ∧ pacing_sleeps tr = imap (λ k _, maybe_rate_sleep args (Z.of_nat k + 1)) it).
  { destruct (batching args) eqn:Hmode.
    - unfold batching in Hmode. destruct (batch_size args) as [B|] eqn:HB; [|done].
      apply bool_decide_eq_true in Hmode.
      destruct (main_batch_spec fuel args B get_total it HB Hmode Hret)
        as (tr & Hmain & _ & _ & _ & _ & _ & _ & _ & Hp).
      by exists tr.
    - destruct (main_stream_spec fuel args get_total it Hmode Hret)
        as (tr & Hmain & _ & _ & _ & Hp).
      by exists tr. }
  destruct Hpace as (tr & Hmain & Hp). exists tr. split; [done|].
  assert (Hsplit : pacing_sleeps tr
    = imap (λ k _, per_record_sleep args
                     ++ interval_sleep args (Z.of_nat k + 1)) it).
  { rewrite Hp. apply imap_ext. intros k m _. simpl.
    rewrite maybe_rate_sleep_spec by lia. done. }
  assert (Hinterval :
    concat (imap (λ k _, interval_sleep args (Z.of_nat k + 1)) it)
    = (if decide (0 < sleep_every args ∧ (0 < sleep_seconds args)%Qc)
       then replicate (Z.to_nat (Z.of_nat (length it) `div` sleep_every args))
              (ESleep (sleep_seconds args))
       else [])).
  { destruct (interval_total args it 0) as (n & Hn & Hcount); [lia|].
    rewrite (imap_ext _ (λ k _, interval_sleep args (0 + Z.of_nat k + 1)))
      by (intros k m _; simpl; f_equal; lia).
    rewrite Hn. destruct (decide _) as [[HE _]|_]; [|done].
    rewrite <-(Nat2Z.id n), (Hcount HE), Z.add_0_l, Zdiv_0_l, Z.sub_0_r. done. }
  split; [done|]. split; [apply per_record_total|]. split; [done|].
  rewrite Hsplit, <-Hinterval, <-(per_record_total args it).
  apply (concat_imap_app (λ _ _, per_record_sleep args)
           (λ k _, interval_sleep args (Z.of_nat k + 1))).
Qed.

Lemma X7_witness :
  ∃ tr,
    main 4 empty_dir_args (Ok 12) (replicate 12 (plain_message 1))
    = Some (tr, Z.of_nat (length (replicate 12 (plain_message 1))))
    ∧ pacing_sleeps tr
      = imap (λ k _, per_record_sleep empty_dir_args
                       ++ interval_sleep empty_dir_args (Z.of_nat k + 1))
          (replicate 12 (plain_message 1))
    ∧ concat (imap (λ _ _, per_record_sleep empty_dir_args)
                (replicate 12 (plain_message 1)))
      = (if decide (0 < sleep_per_msg empty_dir_args)%Qc
         then replicate (length (replicate 12 (plain_message 1)))
                (ESleep (sleep_per_msg empty_dir_args))
         else [])
    ∧ concat (imap (λ k _, interval_sleep empty_dir_args (Z.of_nat k + 1))
                (replicate 12 (plain_message 1)))
      = (if decide (0 < sleep_every empty_dir_args
                    ∧ (0 < sleep_seconds empty_dir_args)%Qc)
         then replicate
                (Z.to_nat (Z.of_nat (length (replicate 12 (plain_message 1)))
                           `div` sleep_every empty_dir_args))
                (ESleep (sleep_seconds empty_dir_args))
         else [])
    ∧ concat (pacing_sleeps tr)
      ≡ₚ (if decide (0 < sleep_per_msg empty_dir_args)%Qc
          then replicate (length (replicate 12 (plain_message 1)))
                 (ESleep (sleep_per_msg empty_dir_args))
          else [])
         ++ (if decide (0 < sleep_every empty_dir_args
                        ∧ (0 < sleep_seconds empty_dir_args)%Qc)
             then replicate
                    (Z.to_nat (Z.of_nat (length (replicate 12 (plain_message 1)))
                               `div` sleep_every empty_dir_args))
                    (ESleep (sleep_seconds empty_dir_args))
             else []).
Proof.
  apply (X7_pacing_totals 4 empty_dir_args 0 (Ok 12) (replicate 12 (plain_message 1))).
  - apply Forall_replicate. intros n s _. discriminate.
  - vm_compute. lia.
Defined.

(** ** What a run leaves alone *)




(** X9: the entries of a run depend on the records only, not on their
    position: when the source yields the same records in the opposite
    direction, the run completes as well, with the same count, and writes
    the same entries in the opposite order. *)
Theorem X9_reversed_source_reversed_output fuel args get_total it tr written :
  main fuel args get_total it = Some (tr, written) →
  ∃ tr',
    main fuel args get_total (reverse it) = Some (tr', written)
    ∧ written_entries tr' = reverse (written_entries tr).
Proof.
  intros Hmain. apply main_closed in Hmain as (Hret & -> & ->).
  exists (main_trace fuel args get_total (reverse it)). split.
  - apply main_closed. split; [by apply Forall_reverse|].
    split; [done|]. by rewrite length_reverse.
  - destruct (main_trace_obs fuel args get_total it) as (-> & _).
    destruct (main_trace_obs fuel args get_total (reverse it)) as (-> & _).
    apply fmap_reverse.
Qed.

Lemma X9_witness :
  ∃ tr',
    main 7 (batch_args 3) (Ok 4) (reverse sample_source) = Some (tr', 4)
    ∧ written_entries tr'
      = reverse (written_entries (main_trace 7 (batch_args 3) (Ok 4) sample_source)).
Proof.
  apply (X9_reversed_source_reversed_output 7 (batch_args 3) (Ok 4) sample_source).
  reflexivity.
Defined.

Lemma string_app_assoc s1 s2 s3 : (s1 +:+ s2) +:+ s3 = s1 +:+ s2 +:+ s3.
Proof.
  induction s1 as [|c s1 IH]; [done|].
  change (String c ((s1 +:+ s2) +:+ s3) = String c (s1 +:+ s2 +:+ s3)).
  by rewrite IH.
Qed.

(** ** The order of the batch file names *)

Lemma string_compare_app p s1 s2 :
  String.compare (p +:+ s1) (p +:+ s2) = String.compare s1 s2.
Proof.
  induction p as [|c p IH]; [done|].
  change (String.compare (String c (p +:+ s1)) (String c (p +:+ s2))
          = String.compare s1 s2).
  cbn [String.compare]. unfold Ascii.compare. by rewrite N.compare_refl.
Qed.

Lemma digit_compare (x y : N) :
  (x < 10)%N → (y < 10)%N → (x < y)%N →
  Ascii.compare (pretty_N_char x) (pretty_N_char y) = Lt.
Proof.
  intros Hx Hy Hxy.
  assert (x = 0 ∨ x = 1 ∨ x = 2 ∨ x = 3 ∨ x = 4 ∨ x = 5 ∨ x = 6 ∨ x = 7
          ∨ x = 8 ∨ x = 9)%N as Hxs by lia.
  assert (y = 0 ∨ y = 1 ∨ y = 2 ∨ y = 3 ∨ y = 4 ∨ y = 5 ∨ y = 6 ∨ y = 7
          ∨ y = 8 ∨ y = 9)%N as Hys by lia.
  repeat (destruct Hxs as [->|Hxs]);
    try subst x;
    repeat (destruct Hys as [->|Hys]);
    try subst y; try lia; reflexivity.
Qed.

Lemma fixed_digits_compare (k : nat) :
  ∀ (a b : N) (t t' : string),
    (a < b)%N → (b < 10 ^ N.of_nat k)%N →
    String.compare (fixed_digits k a +:+ t) (fixed_digits k b +:+ t') = Lt.
Proof.
  induction k as [|k IH]; intros a b t t' Hab Hb.
  { simpl in Hb. lia. }
  cbn [fixed_digits]. rewrite !string_app_assoc.
  assert (Hb' : (b `div` 10 < 10 ^ N.of_nat k)%N).
  { apply N.Div0.div_lt_upper_bound.
    replace (N.of_nat (S k)) with (N.succ (N.of_nat k)) in Hb by lia.
    by rewrite N.pow_succ_r' in Hb. }
  destruct (decide (a `div` 10 = b `div` 10)%N) as [Heq|Hne].
  - rewrite Heq, string_compare_app.
    change (String.compare (String (pretty_N_char (a `mod` 10)%N) t)
              (String (pretty_N_char (b `mod` 10)%N) t') = Lt).
    cbn [String.compare]. rewrite digit_compare; [done|..].
    + apply N.mod_lt. lia.
    + apply N.mod_lt. lia.
    + pose proof (N.div_mod a 10). pose proof (N.div_mod b 10). lia.
  - apply IH; [|done].
    assert (a `div` 10 ≤ b `div` 10)%N by (apply N.Div0.div_le_mono; lia). lia.
Qed.

Lemma zeros_snoc n : zeros n +:+ "0" = String "0"%char (zeros n).
Proof.
  induction n as [|n IH]; [done|].
  change (String "0"%char (zeros n +:+ "0") = String "0"%char (zeros (S n))).
  by rewrite IH.
Qed.

Lemma fixed_digits_0 k : fixed_digits k 0 = zeros k.
Proof.
  induction k as [|k IH]; [done|].
  cbn [fixed_digits]. change (0 `div` 10)%N with 0%N. rewrite IH.
  apply zeros_snoc.
Qed.

Lemma pretty_N_go_length_ge (x : N) :
  ∀ s, (String.length s ≤ String.length (pretty_N_go x s))%nat.
Proof.
  induction (N.lt_wf_0 x) as [x _ IH]; intros s.
  destruct (decide (x = 0)%N) as [->|Hx]; [by rewrite pretty_N_go_0|].
  rewrite pretty_N_go_step by lia.
  etrans; [|apply IH; apply N.div_lt; lia]. simpl. lia.
Qed.

(** Padding the numeral of [x] to [k] places gives its [k] digits. *)
Lemma zfill_pretty_N_go (k : nat) :
  ∀ (x : N) (s : string),
    (x < 10 ^ N.of_nat k)%N →
    zeros (k - (String.length (pretty_N_go x s) - String.length s))
      +:+ pretty_N_go x s
    = fixed_digits k x +:+ s.
Proof.
  induction k as [|k IH]; intros x s Hx.
  { assert (x = 0%N) as -> by (simpl in Hx; lia). by rewrite pretty_N_go_0. }
  destruct (decide (x = 0)%N) as [->|Hne].
  { rewrite pretty_N_go_0, Nat.sub_diag, Nat.sub_0_r, fixed_digits_0. done. }
  assert (Hx' : (x `div` 10 < 10 ^ N.of_nat k)%N).
  { apply N.Div0.div_lt_upper_bound.
    replace (N.of_nat (S k)) with (N.succ (N.of_nat k)) in Hx by lia.
    by rewrite N.pow_succ_r' in Hx. }
  rewrite pretty_N_go_step by lia. cbn [fixed_digits].
  rewrite string_app_assoc.
  change (String (pretty_N_char (x `mod` 10)%N) "" +:+ s)
    with (String (pretty_N_char (x `mod` 10)%N) s).
  rewrite <-(IH _ _ Hx'). f_equal. f_equal.
  pose proof (pretty_N_go_length_ge (x `div` 10)%N
                (String (pretty_N_char (x `mod` 10)%N) s)) as Hge.
  simpl in Hge. simpl. lia.
Qed.

Lemma fmt_05d_fixed (idx : Z) :
  0 < idx < 100000 → fmt_05d idx = fixed_digits 5 (Z.to_N idx).
Proof.
  intros Hidx. destruct idx as [|p|p]; try lia.
  unfold fmt_05d, zfill, pretty, pretty_Z, pretty, pretty_positive, pretty, pretty_N.
  rewrite decide_False by done.
  pose proof (zfill_pretty_N_go 5 (N.pos p) "") as H.
  rewrite Nat.sub_0_r in H. simpl String.length in H.
  rewrite H by (simpl; lia). simpl Z.to_N.
  generalize (fixed_digits 5 (N.pos p)). clear.
  intros s. induction s as [|c s IH]; [done|].
  change (String c (s +:+ "") = String c s). by rewrite IH.
Qed.

(** X11: the zero padding makes the names of the batch files sort in the
    order of their sequence numbers, as long as the numbers stay below
    100000: for 1 <= a < b < 100000 the path of batch a comes before the
    path of batch b in the lexicographic order of the characters.  From
    100000 on this is lost: the path of batch 100000 comes before the path
    of batch 99999. *)
Theorem X11_batch_names_sort_below_100000 args :
  (∀ a b, 1 ≤ a → a < b → b < 100000 →
     String.compare (batch_path_of args a) (batch_path_of args b) = Lt)
  ∧ String.compare (batch_path_of args 100000) (batch_path_of args 99999) = Lt.
Proof.
  split.
  - intros a b Ha Hab Hb. unfold batch_path_of, joinpath, batch_file_name.
    rewrite !string_compare_app.
    rewrite !fmt_05d_fixed by lia.
    apply fixed_digits_compare; [lia|simpl; lia].
  - unfold batch_path_of, joinpath, batch_file_name.
    rewrite !string_compare_app. reflexivity.
Qed.

(** ** The time a failing download costs *)

Lemma two_Qc : Q2Qc 2 = (1 + 1)%Qc.
Proof. by apply Qc_is_canon. Qed.

Lemma geometric_sum (n : nat) :
  ∀ b : Qc,
    foldr Qcplus (Q2Qc 0) ((λ i, b * Q2Qc 2 ^ i)%Qc <$> seq 0 n)
    = (b * (Q2Qc 2 ^ n - 1))%Qc.
Proof.
  induction n as [|n IH]; intros b.
  { simpl. ring. }
  cbn [seq fmap list_fmap foldr].
  rewrite <-fmap_S_seq, <-list_fmap_compose.
  assert (Hext : (λ i, b * Q2Qc 2 ^ i)%Qc ∘ S <$> seq 0 n
                 = (λ i, (b * Q2Qc 2) * Q2Qc 2 ^ i)%Qc <$> seq 0 n).
  { apply list_fmap_ext. intros _ i _. simpl. ring. }
  rewrite Hext, IH. simpl. rewrite two_Qc. ring.
Qed.

(** X12: a download that fails on every attempt for a reason other than
    throttling holds the export up for max(0, b) * (2^R - 1) seconds of
    backoff in all, b being the initial backoff and R = max(0, max_retries)
    the retry budget; nothing is slept when the budget or the backoff is
    zero. *)
Theorem X12_backoff_time_of_a_failing_download args msg (errs : nat → exn) dir fuel :
  media_dir args = Some dir →
  (∀ n, download_media msg n = Raise (errs n)) →
  (∀ n s, errs n ≠ FloodWaitError s) →
  (retries args < fuel)%nat →
  ∃ f,
    download_with_retry fuel args msg = Some f
    ∧ total_sleep (fetch_trace f)
      = (max0 (retry_backoff args) * (Q2Qc 2 ^ retries args - 1))%Qc
    ∧ (retries args = 0%nat ∨ (retry_backoff args <= Q2Qc 0)%Qc →
       total_sleep (fetch_trace f) = Q2Qc 0).
Proof.
  intros Hdir Hdl Hne Hfuel. unfold download_with_retry. rewrite Hdir.
  rewrite (retry_loop_failing args msg errs Hdl Hne (retries args));
    [|unfold retries; lia|done].
  eexists. split; [done|]. simpl. unfold total_sleep.
  rewrite sleeps_retry_trace by apply max0_nonneg.
  rewrite geometric_sum. split; [done|].
  intros [-> | Hb]; [simpl; ring|].
  unfold max0. rewrite decide_False; [ring|].
  by apply Qcle_not_lt.
Qed.

Lemma X12_witness :
  ∃ f,
    download_with_retry 4 media_args broken_media_message = Some f
    ∧ total_sleep (fetch_trace f)
      = (max0 (retry_backoff media_args) * (Q2Qc 2 ^ retries media_args - 1))%Qc
    ∧ (retries media_args = 0%nat ∨ (retry_backoff media_args <= Q2Qc 0)%Qc →
       total_sleep (fetch_trace f) = Q2Qc 0).
Proof.
  apply (X12_backoff_time_of_a_failing_download media_args broken_media_message
           (λ _, connection_reset) "media" 4).
  - reflexivity.
  - reflexivity.
  - discriminate.
  - vm_compute. lia.
Defined.
